(** * boost::synchronized and boost::locked_ptr

    A shallow embedding of [src/boost/synchronized.hpp] and of the test
    doubles of [src/test.cpp].

    Objects live in a store and are named by their address.  A C++ reference
    is the address of its referent, a pointer is an address or [nullptr].
    Calls of the lock capability are run against the store and recorded in a
    log, so that statements such as "exactly one acquire call" can be made
    for every lock type and not only for the counting test double. *)

From Stdlib Require Import ZArith Lia.
From stdpp Require Import gmap strings list sorting.

Open Scope Z_scope.

(** ** Addresses and pointers *)

(** The address of a live object is never null. *)
Definition addr := positive.

(** [Resource *]: [0] is the null pointer. *)
Definition pointer := N.

Definition nullptr : pointer := 0%N.

(** [std::addressof(x)] for an object (or the referent of a reference) at [a]. *)
Definition addressof (a : addr) : pointer := Npos a.

Definition is_null (p : pointer) : bool := (p =? nullptr)%N.

(** The object a non-null pointer points to. *)
Definition pointee (p : pointer) : option addr :=
  match p with
  | N0 => None
  | Npos a => Some a
  end.

(** ** Exceptions *)

Inductive exn :=
| runtime_error (what : string)
| system_error (what : string)
| out_of_range (what : string).

(** ** The lock capability *)

(** What a call of [lock()] or [unlock()] on a lock in a given state does. *)
Inductive outcome (M : Type) :=
| Returns (m : M)             (* returns normally, leaving the lock in state m *)
| Throws (e : exn) (m : M)    (* raises e, leaving the lock in state m *)
| Blocks                      (* cannot complete while the lock is in this state *)
| Misuse.                     (* precondition of the call violated: no defined behaviour *)

Arguments Returns {M} m.
Arguments Throws {M} e m.
Arguments Blocks {M}.
Arguments Misuse {M}.

(** The template parameter [Mutex]: any type with [lock()] and [unlock()]. *)
Module Lockable.
Class t (M : Type) := {
  lock : M -> outcome M;
  unlock : M -> outcome M
}.
End Lockable.

(** [int] of the test doubles: 32 bits, two's complement. *)
Definition int_wrap (z : Z) : Z := (z + 2 ^ 31) mod 2 ^ 32 - 2 ^ 31.

(** [++i] on an [int]. *)
Definition pre_incr (i : Z) : Z := int_wrap (i + 1).

(** [std::mutex], as far as the tests use it: it is either free or held.
    [lock()] on a held mutex waits for the holder; [unlock()] on a mutex that
    is not held has no defined behaviour. *)
Module std_mutex.
Record t := { held : bool }.

Definition init : t := {| held := false |}.

Definition lock (m : t) : outcome t :=
  if held m then Blocks else Returns {| held := true |}.

Definition unlock (m : t) : outcome t :=
  if held m then Returns {| held := false |} else Misuse.

Definition try_lock (m : t) : bool * t :=
  if held m then (false, m) else (true, {| held := true |}).

#[global] Instance lockable : Lockable.t t := {|
  Lockable.lock := lock;
  Lockable.unlock := unlock
|}.
End std_mutex.

(** [mock_mutex] of test case [synchronized_access]. *)
Module flag_mutex.
Record t := { is_locked : bool }.

Definition init : t := {| is_locked := false |}.

Definition lock (m : t) : outcome t := Returns {| is_locked := true |}.

Definition unlock (m : t) : outcome t := Returns {| is_locked := false |}.

#[global] Instance lockable : Lockable.t t := {|
  Lockable.lock := lock;
  Lockable.unlock := unlock
|}.
End flag_mutex.

(** [mock_mutex] of test case [move_ptr]. *)
Module counting_mutex.
Record t := { count_lock : Z; count_unlock : Z }.

Definition init : t := {| count_lock := 0; count_unlock := 0 |}.

Definition lock (m : t) : outcome t :=
  Returns {| count_lock := pre_incr (count_lock m); count_unlock := count_unlock m |}.

Definition unlock (m : t) : outcome t :=
  Returns {| count_lock := count_lock m; count_unlock := pre_incr (count_unlock m) |}.

#[global] Instance lockable : Lockable.t t := {|
  Lockable.lock := lock;
  Lockable.unlock := unlock
|}.
End counting_mutex.

(** [mock_mutex] of test case [avoid_undefined_behaviour_if_unlock_throws]. *)
Module throwing_mutex.
Record t := { }.

Definition init : t := Build_t.

Definition lock (m : t) : outcome t := Returns m.

Definition unlock (m : t) : outcome t :=
  Throws (runtime_error "out of cheese exception") m.

#[global] Instance lockable : Lockable.t t := {|
  Lockable.lock := lock;
  Lockable.unlock := unlock
|}.
End throwing_mutex.

(** A lock whose [lock()] raises, as [std::mutex::lock] is allowed to (it
    reports a failure as [std::system_error]); [attempts] counts the calls. *)
Module failing_mutex.
Record t := { attempts : Z }.

Definition init : t := {| attempts := 0 |}.

Definition lock (m : t) : outcome t :=
  Throws (system_error "resource unavailable") {| attempts := pre_incr (attempts m) |}.

Definition unlock (m : t) : outcome t := Misuse.

#[global] Instance lockable : Lockable.t t := {|
  Lockable.lock := lock;
  Lockable.unlock := unlock
|}.
End failing_mutex.

(** ** Program states and computations *)

(** A call of the lock capability, with the exception it raised if any. *)
Inductive event :=
| EvLock (m : addr) (raised : option exn)
| EvUnlock (m : addr) (raised : option exn).

#[export] Instance exn_eq_dec : EqDecision exn.
Proof. solve_decision. Defined.

#[export] Instance event_eq_dec : EqDecision event.
Proof. solve_decision. Defined.

(** The store: the lock objects, the resource objects, and the log of the
    calls made on locks so far (oldest first). *)
Record state (M R : Type) := State {
  mutexes : gmap addr M;
  resources : gmap addr R;
  events : list event
}.

Arguments State {M R} _ _ _.
Arguments mutexes {M R} _.
Arguments resources {M R} _.
Arguments events {M R} _.

(** How a computation ends. *)
Inductive result (S A : Type) :=
| Done (a : A) (s : S)        (* normal return *)
| Raised (e : exn) (s : S)    (* an exception leaves the computation *)
| Hang                        (* blocked in a call that does not complete *)
| Undefined.                  (* undefined behaviour *)

Arguments Done {S A} a s.
Arguments Raised {S A} e s.
Arguments Hang {S A}.
Arguments Undefined {S A}.

Definition prog (S A : Type) := S -> result S A.

Definition ret {S A} (a : A) : prog S A := fun s => Done a s.

Definition raise {S A} (e : exn) : prog S A := fun s => Raised e s.

Definition bind {S A B} (c : prog S A) (k : A -> prog S B) : prog S B :=
  fun s =>
    match c s with
    | Done a s' => k a s'
    | Raised e s' => Raised e s'
    | Hang => Hang
    | Undefined => Undefined
    end.

Notation "x <- c ;; k" := (bind c (fun x => k))
  (at level 100, c at next level, right associativity).
Notation "c ;; k" := (bind c (fun _ => k))
  (at level 100, right associativity).

(** [try { c } catch (...) {}] *)
Definition try_catch_all {S} (c : prog S unit) : prog S unit :=
  fun s =>
    match c s with
    | Raised _ s' => Done tt s'
    | r => r
    end.

Section Calls.
Context {M R : Type} `{!Lockable.t M}.

(** The store after a call on the lock at [m] that left it in state [st']. *)
Definition record_call (m : addr) (st' : M) (ev : event) (s : state M R)
    : state M R :=
  State (<[m := st']> (mutexes s)) (resources s) (events s ++ [ev]).

(** Runs one method of the lock at [m] and records the call. *)
Definition call (f : M -> outcome M) (ev : addr -> option exn -> event)
    (m : addr) : prog (state M R) unit :=
  fun s =>
    match mutexes s !! m with
    | None => Undefined
    | Some st =>
        match f st with
        | Returns st' => Done tt (record_call m st' (ev m None) s)
        | Throws e st' => Raised e (record_call m st' (ev m (Some e)) s)
        | Blocks => Hang
        | Misuse => Undefined
        end
    end.

(** [mutex.lock()] *)
Definition call_lock : addr -> prog (state M R) unit :=
  call Lockable.lock EvLock.

(** [mutex.unlock()] *)
Definition call_unlock : addr -> prog (state M R) unit :=
  call Lockable.unlock EvUnlock.
End Calls.

(** ** Static types *)

(** A template argument: a named type, possibly const-qualified, possibly an
    lvalue reference to it. *)
Record cpp_type := {
  ty_name : string;
  ty_const : bool;
  ty_lref : bool
}.

Definition is_lvalue_reference (T : cpp_type) : bool := ty_lref T.

Definition remove_reference (T : cpp_type) : cpp_type :=
  {| ty_name := ty_name T; ty_const := ty_const T; ty_lref := false |}.

(** [T const] for an object type [T]. *)
Definition add_const (T : cpp_type) : cpp_type :=
  {| ty_name := ty_name T; ty_const := true; ty_lref := ty_lref T |}.

Definition value_of (name : string) : cpp_type :=
  {| ty_name := name; ty_const := false; ty_lref := false |}.

Definition lref_to (T : cpp_type) : cpp_type :=
  {| ty_name := ty_name T; ty_const := ty_const T; ty_lref := true |}.

(** ** locked_ptr *)

Module locked_ptr.
(** [locked_ptr<Resource, Mutex>]: [Resource] is kept as the static pointee
    type, [mutex_] is the address the reference member is bound to. *)
Record t := {
  Resource : cpp_type;
  ptr_ : pointer;
  mutex_ : addr
}.

(** The two states of a guard. *)
Definition owning (g : t) : Prop := ptr_ g <> nullptr.
Definition released (g : t) : Prop := ptr_ g = nullptr.

Section Ops.
Context {M R : Type} `{!Lockable.t M}.

(** [locked_ptr(Resource * ptr, Mutex & mutex)] *)
Definition ctor (T : cpp_type) (ptr : pointer) (mutex : addr)
    : prog (state M R) t :=
  let this := {| Resource := T; ptr_ := ptr; mutex_ := mutex |} in
  if negb (is_null ptr) then
    call_lock (mutex_ this) ;; ret this
  else ret this.

(** [locked_ptr(locked_ptr && other) noexcept]: the new object and
    [other] as the constructor leaves it. *)
Definition move_ctor (other : t) : prog (state M R) (t * t) :=
  let this := {| Resource := Resource other; ptr_ := ptr_ other;
                 mutex_ := mutex_ other |} in
  let other' := {| Resource := Resource other; ptr_ := nullptr;
                   mutex_ := mutex_ other |} in
  ret (this, other').

(** [operator->] *)
Definition arrow (this : t) : pointer := ptr_ this.

(** [operator*]: the object [ptr_] points to. *)
Definition deref (this : t) : prog (state M R) R :=
  fun s =>
    match pointee (ptr_ this) with
    | None => Undefined
    | Some a =>
        match resources s !! a with
        | None => Undefined
        | Some r => Done r s
        end
    end.

(** [~locked_ptr() noexcept] *)
Definition dtor (this : t) : prog (state M R) unit :=
  if negb (is_null (ptr_ this)) then
    try_catch_all (call_unlock (mutex_ this))
  else ret tt.
End Ops.
End locked_ptr.


(** ** synchronized *)

(** A constructor argument bound to a forwarding reference: an existing
    object (an lvalue) or a temporary with the given value. *)
Inductive arg (A : Type) :=
| Lvalue (a : addr)
| Rvalue (v : A).

Arguments Lvalue {A} a.
Arguments Rvalue {A} v.

(** Initialises a data member of declared type [T] from [x].  A reference
    member is bound to the object [x] names; a member held by value is a new
    object copied or moved from [x].  [None]: the initialisation is not
    possible (a reference cannot be bound to a temporary or to a dead
    object). *)
Definition init_member {A} (T : cpp_type) (x : arg A) (heap : gmap addr A)
    : option (addr * gmap addr A) :=
  if is_lvalue_reference T then
    match x with
    | Lvalue a => if decide (is_Some (heap !! a)) then Some (a, heap) else None
    | Rvalue _ => None
    end
  else
    let a' := fresh (dom heap) in
    match x with
    | Lvalue a =>
        match heap !! a with
        | Some v => Some (a', <[a' := v]> heap)
        | None => None
        end
    | Rvalue v => Some (a', <[a' := v]> heap)
    end.

Module synchronized.
Definition std_mutex_type : cpp_type := value_of "std::mutex".

(** The default of the template parameter [Mutex]:
    [std::conditional<std::is_lvalue_reference<Resource>::value,
                      std::mutex&, std::mutex>::type]. *)
Definition default_Mutex (Resource : cpp_type) : cpp_type :=
  if is_lvalue_reference Resource then lref_to std_mutex_type
  else std_mutex_type.

(** [synchronized<Resource, Mutex>]: the two template arguments, and the
    objects the members [mutex_] and [resource_] are (member held by value)
    or are bound to (reference member). *)
Record t := {
  Resource : cpp_type;
  Mutex : cpp_type;
  mutex_ : addr;
  resource_ : addr
}.

Definition resource_type (this : t) : cpp_type := remove_reference (Resource this).
Definition mutex_type (this : t) : cpp_type := remove_reference (Mutex this).

(** Pointee type of [locked_mutable_ptr = locked_ptr<resource_type, mutex_type>]. *)
Definition locked_mutable_ptr (this : t) : cpp_type := resource_type this.

(** Pointee type of [locked_const_ptr = locked_ptr<resource_type const, mutex_type>]. *)
Definition locked_const_ptr (this : t) : cpp_type := add_const (resource_type this).

Section Ops.
Context {M R : Type} `{!Lockable.t M}.

(** The member initialisers [mutex_(mutex), resource_(resource)]; the
    members are initialised in the order of their declaration, [mutex_]
    first. *)
Definition init_members (TR TM : cpp_type) (resource : arg R) (mutex : arg M)
    : prog (state M R) t :=
  fun s =>
    match init_member TM mutex (mutexes s) with
    | None => Undefined
    | Some (m, ms) =>
        match init_member TR resource (resources s) with
        | None => Undefined
        | Some (r, rs) =>
            Done {| Resource := TR; Mutex := TM; mutex_ := m; resource_ := r |}
                 (State ms rs (events s))
        end
    end.

(** [synchronized(Resource_Arg && resource, Mutex_Arg && mutex)].  The
    class declares [mutable Mutex mutex_;], and [mutable] cannot be applied
    to a member of reference type: with a reference-typed [Mutex] the class
    is not well-formed and there is nothing to construct. *)
Definition ctor_resource_mutex (TR TM : cpp_type) (resource : arg R) (mutex : arg M)
    : prog (state M R) t :=
  if is_lvalue_reference TM then fun _ => Undefined
  else init_members TR TM resource mutex.

(** [explicit synchronized(Resource_Arg && resource)]: [mutex_] is default
    constructed ([m0] is a default constructed lock), which a reference
    cannot be. *)
Definition ctor_resource (TR TM : cpp_type) (m0 : M) (resource : arg R)
    : prog (state M R) t :=
  if is_lvalue_reference TM then fun _ => Undefined
  else ctor_resource_mutex TR TM resource (Rvalue m0).

(** [synchronized() = default]: both members default constructed. *)
Definition ctor_default (TR TM : cpp_type) (m0 : M) (r0 : R)
    : prog (state M R) t :=
  if is_lvalue_reference TR then fun _ => Undefined
  else ctor_resource TR TM m0 (Rvalue r0).

(** [synchronized(synchronized<Other_resource, Other_mutex> & other)] and
    its [const &] twin: both delegate to [synchronized(other.resource_,
    other.mutex_)], where the two arguments are lvalues. *)
Definition convert (TR TM : cpp_type) (other : t) : prog (state M R) t :=
  ctor_resource_mutex TR TM (Lvalue (resource_ other)) (Lvalue (mutex_ other)).

(** [synchronized(synchronized const &) = default]: each member is
    initialised from the member of [other]; a reference member is bound to
    the same object. *)
Definition copy_ctor (other : t) : prog (state M R) t :=
  init_members (Resource other) (Mutex other)
    (Lvalue (resource_ other)) (Lvalue (mutex_ other)).

(** [synchronized& operator=(synchronized const &) = default]: each member
    of [this] is assigned from the member of [other], [mutex_] first; it is
    defined only for a wrapper without reference members. *)
Definition assign (this other : t) : prog (state M R) t :=
  fun s =>
    if is_lvalue_reference (Mutex this) || is_lvalue_reference (Resource this)
    then Undefined
    else
      match mutexes s !! mutex_ this, mutexes s !! mutex_ other with
      | Some _, Some mo =>
          match resources s !! resource_ this, resources s !! resource_ other with
          | Some _, Some ro =>
              Done this (State (<[mutex_ this := mo]> (mutexes s))
                               (<[resource_ this := ro]> (resources s))
                               (events s))
          | _, _ => Undefined
          end
      | _, _ => Undefined
      end.

(** [locked_mutable_ptr lock()] *)
Definition lock (this : t) : prog (state M R) locked_ptr.t :=
  locked_ptr.ctor (locked_mutable_ptr this) (addressof (resource_ this)) (mutex_ this).

(** [locked_const_ptr lock() const] *)
Definition lock_const (this : t) : prog (state M R) locked_ptr.t :=
  locked_ptr.ctor (locked_const_ptr this) (addressof (resource_ this)) (mutex_ this).
End Ops.
End synchronized.

(** ** Ownership of the members *)

(** A member of non-reference type is owned by the wrapper. *)
Definition owns_resource (w : synchronized.t) : bool :=
  negb (is_lvalue_reference (synchronized.Resource w)).

Definition owns_lock (w : synchronized.t) : bool :=
  negb (is_lvalue_reference (synchronized.Mutex w)).


(** A lock that, once acquired, cannot be acquired again in the state the
    acquisition left it in. *)
Definition exclusive (M : Type) `{!Lockable.t M} : Prop :=
  forall st st' : M, Lockable.lock st = Returns st' -> Lockable.lock st' = Blocks.


(** ** Member calls through a guard *)

(** The cv-qualifier of a member function. *)
Inductive qualifier := NonConst | Const.

#[export] Instance qualifier_eq_dec : EqDecision qualifier.
Proof. solve_decision. Defined.

(** A member function of qualifier [q] can be called on an object expression
    that is const ([obj_const]) only if it is const-qualified itself. *)
Definition viable (obj_const : bool) (q : qualifier) : bool :=
  match q with
  | Const => true
  | NonConst => negb obj_const
  end.

(** The qualifier that binds the implicit object parameter without a
    qualification conversion. *)
Definition exact_qualifier (obj_const : bool) : qualifier :=
  if obj_const then Const else NonConst.

(** Overload resolution among the overloads of one member name that differ
    in their cv-qualifier only: the exact match if there is one, otherwise a
    viable one. *)
Definition resolve {A} (obj_const : bool) (overloads : list (qualifier * A))
    : option (qualifier * A) :=
  match filter (fun o => o.1 = exact_qualifier obj_const) overloads with
  | o :: _ => Some o
  | [] => head (filter (fun o => viable obj_const o.1 = true) overloads)
  end.

(** A member call through [operator->] or [operator*] of a guard: resolved
    on the static pointee type of the guard. *)
Definition select_member {A} (g : locked_ptr.t) (overloads : list (qualifier * A))
    : option (qualifier * A) :=
  resolve (ty_const (locked_ptr.Resource g)) overloads.

(** [struct test] of test case [maintain_const_correctness] (and [child] of
    [conversion]): [bool is_const()] and [bool is_const() const], labelled
    with what they return. *)
Definition is_const_overloads : list (qualifier * bool) :=
  [(NonConst, false); (Const, true)].

(** A member function of the resource: it raises, or returns a value and
    leaves the resource in a new state. *)
Definition member (R A : Type) : Type := R -> exn + (A * R).

Section Members.
Context {M R : Type} `{!Lockable.t M}.

(** Calls the selected overload on the object the guard points to.  No
    viable overload: the call is not a well-formed program. *)
Definition call_member {A} (g : locked_ptr.t) (overloads : list (qualifier * member R A))
    : prog (state M R) A :=
  fun s =>
    match select_member g overloads with
    | None => Undefined
    | Some (_, f) =>
        match pointee (locked_ptr.arrow g) with
        | None => Undefined
        | Some a =>
            match resources s !! a with
            | None => Undefined
            | Some r =>
                match f r with
                | inl e => Raised e s
                | inr (x, r') =>
                    Done x (State (mutexes s) (<[a := r']> (resources s)) (events s))
                end
            end
        end
    end.

(** The end of the block a guard is declared in: its destructor runs when
    the body returns and when an exception leaves the body. *)
Definition scope_exit {A} (g : locked_ptr.t) (body : prog (state M R) A)
    : prog (state M R) A :=
  fun s =>
    match body s with
    | Done a s' => (locked_ptr.dtor g ;; ret a) s'
    | Raised e s' => (locked_ptr.dtor g ;; raise e) s'
    | Hang => Hang
    | Undefined => Undefined
    end.

(** A lock object declared by the caller, [Mutex mutex;]. *)
Definition declare_mutex (m0 : M) : prog (state M R) addr :=
  fun s =>
    let a := fresh (dom (mutexes s)) in
    Done a (State (<[a := m0]> (mutexes s)) (resources s) (events s)).

(** A resource object declared by the caller. *)
Definition declare_resource (r0 : R) : prog (state M R) addr :=
  fun s =>
    let a := fresh (dom (resources s)) in
    Done a (State (mutexes s) (<[a := r0]> (resources s)) (events s)).
End Members.

(** Either overload of [synchronized::lock]: the const one on a const
    wrapper. *)
Definition access {M R : Type} `{!Lockable.t M} (const_this : bool)
    (w : synchronized.t) : prog (state M R) locked_ptr.t :=
  if const_this then synchronized.lock_const w else synchronized.lock w.

(** The guard either overload of [lock()] builds. *)
Definition guard_of (const_this : bool) (w : synchronized.t) : locked_ptr.t :=
  {| locked_ptr.Resource :=
       if const_this then synchronized.locked_const_ptr w else synchronized.locked_mutable_ptr w;
     locked_ptr.ptr_ := addressof (synchronized.resource_ w);
     locked_ptr.mutex_ := synchronized.mutex_ w |}.

(** The store before anything is declared. *)
Definition empty_state {M R : Type} : state M R := State ∅ ∅ [].

(** What a computation returned, if it returned. *)
Definition returned {S A} (r : result S A) : option A :=
  match r with
  | Done a _ => Some a
  | _ => None
  end.

(** ** Guards as objects: sequences of constructions, moves and destructions *)

(** The guard objects created so far, in the order of their creation;
    [None] once the object is destroyed. *)
Abbreviation guards := (list (option locked_ptr.t)).

Inductive op :=
| OpAccess (const_this : bool) (w : synchronized.t)          (* auto g = w.lock(); *)
| OpConstruct (T : cpp_type) (ptr : pointer) (mutex : addr)  (* locked_ptr<T, Mutex> g{ptr, mutex}; *)
| OpMove (i : nat)                                           (* auto g = std::move(g_i); *)
| OpDestroy (i : nat).                                       (* the lifetime of g_i ends *)

Section Sequences.
Context {M R : Type} `{!Lockable.t M}.

Definition step (o : op) (env : guards) : prog (state M R) guards :=
  match o with
  | OpAccess c w => g <- access c w ;; ret (env ++ [Some g])
  | OpConstruct T ptr mutex => g <- locked_ptr.ctor T ptr mutex ;; ret (env ++ [Some g])
  | OpMove i =>
      match env !! i with
      | Some (Some other) =>
          p <- locked_ptr.move_ctor other ;;
          ret (<[i := Some p.2]> env ++ [Some p.1])
      | _ => fun _ => Undefined
      end
  | OpDestroy i =>
      match env !! i with
      | Some (Some g) => locked_ptr.dtor g ;; ret (<[i := None]> env)
      | _ => fun _ => Undefined
      end
  end.

(** One operation whose exception, if it raises one, is caught by the
    caller, who goes on with the guards there were. *)
Definition step_caught (o : op) (env : guards) : prog (state M R) guards :=
  fun s =>
    match step o env s with
    | Raised _ s' => Done env s'
    | r => r
    end.

Fixpoint run (ops : list op) (env : guards) : prog (state M R) guards :=
  match ops with
  | [] => ret env
  | o :: ops' => env' <- step_caught o env ;; run ops' env'
  end.
End Sequences.

(** Number of elements of [l] that satisfy [p]. *)
Fixpoint count_if {A} (p : A -> bool) (l : list A) : nat :=
  match l with
  | [] => 0%nat
  | x :: l' => ((if p x then 1 else 0) + count_if p l')%nat
  end.

Definition is_lock_call (m : addr) (ev : event) : bool :=
  match ev with
  | EvLock m' _ => bool_decide (m' = m)
  | EvUnlock _ _ => false
  end.

Definition is_acquisition (m : addr) (ev : event) : bool :=
  match ev with
  | EvLock m' None => bool_decide (m' = m)
  | _ => false
  end.

Definition is_unlock_call (m : addr) (ev : event) : bool :=
  match ev with
  | EvUnlock m' _ => bool_decide (m' = m)
  | EvLock _ _ => false
  end.

(** Calls of [lock()] on the lock at [m], whatever their outcome. *)
Definition lock_calls (m : addr) (tr : list event) : nat :=
  count_if (is_lock_call m) tr.

(** Calls of [lock()] on the lock at [m] that returned normally. *)
Definition acquired (m : addr) (tr : list event) : nat :=
  count_if (is_acquisition m) tr.

(** Calls of [unlock()] on the lock at [m], whatever their outcome. *)
Definition unlock_calls (m : addr) (tr : list event) : nat :=
  count_if (is_unlock_call m) tr.

(** A live guard in the owning state whose lock is the one at [m]. *)
Definition is_owner (m : addr) (og : option locked_ptr.t) : bool :=
  match og with
  | Some g => negb (is_null (locked_ptr.ptr_ g)) && bool_decide (locked_ptr.mutex_ g = m)
  | None => false
  end.

(** The live guards that are in the owning state for the lock at [m]. *)
Definition owners (m : addr) (env : guards) : nat :=
  count_if (is_owner m) env.

(** The live owning guards of a lock account for the difference between its
    successful acquisitions and the calls of its release operation. *)
Definition balanced (env : guards) (tr : list event) : Prop :=
  forall m : addr, (unlock_calls m tr + owners m env = acquired m tr)%nat.

(** ** The resources and scenarios of test.cpp *)

(** A member function that returns [x] and leaves the object as it is. *)
Definition returning {R A} (x : A) : member R A := fun r => inr (x, r).

(** [is_const()] of [struct test] and [struct child] as member functions. *)
Definition is_const {R} : list (qualifier * member R bool) :=
  map (fun o => (o.1, returning o.2)) is_const_overloads.

(** [std::vector<int>::at(i) = x]: the overload of [at] that yields a
    reference one can assign through. *)
Definition vector_at_assign (i : nat) (x : Z) : list (qualifier * member (list Z) unit) :=
  [(NonConst, fun v => if decide (i < length v)%nat then inr (tt, <[i := x]> v)
                       else inl (out_of_range "vector::at"))].

(** [std::vector<int>::at(i)] read: both overloads yield the element. *)
Definition vector_at (i : nat) : list (qualifier * member (list Z) Z) :=
  let read v := match v !! i with
                | Some x => inr (x, v)
                | None => inl (out_of_range "vector::at")
                end in
  [(NonConst, read); (Const, read)].

(** [boost::range::sort(v)]: needs a mutable range. *)
Definition range_sort : list (qualifier * member (list Z) unit) :=
  [(NonConst, fun v => inr (tt, merge_sort Z.le v))].

Definition vector_int : cpp_type := value_of "std::vector<int>".
Definition int_type : cpp_type := value_of "int".
Definition mock_mutex : cpp_type := value_of "mock_mutex".
Definition parent : cpp_type := value_of "parent".
Definition child : cpp_type := value_of "child".
Definition test : cpp_type := value_of "test".

(** Snippet [Member_access] of test case [usage]:
    [synchronized_vector.lock()->at(3)]. *)
Definition member_access {M} `{!Lockable.t M} (synchronized_vector : synchronized.t)
    : prog (state M (list Z)) Z :=
  g <- synchronized.lock synchronized_vector ;;
  scope_exit g (call_member g (vector_at 3)).

(** Snippet [Multiple_operations] of test case [usage]. *)
Definition multiple_operations {M} `{!Lockable.t M} (synchronized_vector : synchronized.t)
    : prog (state M (list Z)) unit :=
  ptr <- synchronized.lock synchronized_vector ;;
  scope_exit ptr
    (call_member ptr (vector_at_assign 3 4) ;;
     call_member ptr range_sort).

(** Test case [synchronized_access]: the wrapper, and [mutex.is_locked]
    before, inside and after the block. *)
Definition synchronized_access
    : prog (state flag_mutex.t Z) (synchronized.t * addr * (bool * bool * bool)) :=
  mutex <- declare_mutex flag_mutex.init ;;
  instance <- synchronized.ctor_resource_mutex int_type (lref_to mock_mutex)
                (Rvalue 42) (Lvalue mutex) ;;
  let is_locked : prog (state flag_mutex.t Z) bool := fun s =>
    match mutexes s !! mutex with
    | Some m => Done (flag_mutex.is_locked m) s
    | None => Undefined
    end in
  b0 <- is_locked ;;
  ptr <- synchronized.lock instance ;;
  b1 <- scope_exit ptr is_locked ;;
  b2 <- is_locked ;;
  ret (instance, mutex, (b0, b1, b2)).

(** A full expression [w.lock()->is_const()]: the temporary guard is
    destroyed at its end. *)
Definition lock_is_const {M R} `{!Lockable.t M} (const_this : bool) (w : synchronized.t)
    : prog (state M R) bool :=
  g <- access const_this w ;;
  scope_exit g (call_member g is_const).

(** Test case [maintain_const_correctness]: what [is_const()] returns in
    the four checks, through [operator*] and [operator->] of a guard of
    [changable] and then of [immutable]. *)
Definition maintain_const_correctness
    : prog (state std_mutex.t unit) (bool * bool * bool * bool) :=
  changable <- synchronized.ctor_default test (synchronized.default_Mutex test)
                 std_mutex.init tt ;;
  b1 <- lock_is_const false changable ;;
  b2 <- lock_is_const false changable ;;
  let immutable := changable in
  b3 <- lock_is_const true immutable ;;
  b4 <- lock_is_const true immutable ;;
  ret (b1, b2, b3, b4).

(** Test case [guard_base_class]: [&instance == &*reference.lock()]. *)
Definition guard_base_class : prog (state std_mutex.t unit) bool :=
  instance <- declare_resource tt ;;
  mutex <- declare_mutex std_mutex.init ;;
  reference <- synchronized.ctor_resource_mutex (lref_to parent)
                 (synchronized.default_Mutex (lref_to parent))
                 (Lvalue instance) (Lvalue mutex) ;;
  g <- synchronized.lock reference ;;
  scope_exit g (ret (bool_decide (addressof instance = locked_ptr.ptr_ g))).

(** Test case [conversion]: the three wrappers and what [is_const()]
    returns through [base_reference] and [base_const_reference]. *)
Definition conversion
    : prog (state std_mutex.t unit)
           (synchronized.t * synchronized.t * synchronized.t * (bool * bool)) :=
  child_instance <- synchronized.ctor_default child (synchronized.default_Mutex child)
                      std_mutex.init tt ;;
  base_reference <- synchronized.convert (lref_to parent)
                      (synchronized.default_Mutex (lref_to parent)) child_instance ;;
  b1 <- lock_is_const false base_reference ;;
  let const_child := child_instance in
  base_const_reference <- synchronized.convert (lref_to (add_const parent))
                      (synchronized.default_Mutex (lref_to (add_const parent)))
                      const_child ;;
  b2 <- lock_is_const false base_const_reference ;;
  ret (child_instance, base_reference, base_const_reference, (b1, b2)).

(** Test case [move_ptr]: [mutex.count_lock] and [mutex.count_unlock] after
    the block.  Both moves are from [ptr]. *)
Definition move_ptr : prog (state counting_mutex.t Z) (Z * Z) :=
  mutex <- declare_mutex counting_mutex.init ;;
  sync_int <- synchronized.ctor_resource_mutex int_type (lref_to mock_mutex)
                (Rvalue 42) (Lvalue mutex) ;;
  ptr <- synchronized.lock sync_int ;;
  p1 <- locked_ptr.move_ctor ptr ;;
  let copy := p1.1 in
  let ptr := p1.2 in
  p2 <- locked_ptr.move_ctor ptr ;;
  let copy_2 := p2.1 in
  let ptr := p2.2 in
  locked_ptr.dtor copy_2 ;;
  locked_ptr.dtor copy ;;
  locked_ptr.dtor ptr ;;
  fun s =>
    match mutexes s !! mutex with
    | Some m => Done (counting_mutex.count_lock m, counting_mutex.count_unlock m) s
    | None => Undefined
    end.

(** [m.try_lock()] on the [std::mutex] at [m]. *)
Definition call_try_lock {R} (m : addr) : prog (state std_mutex.t R) bool :=
  fun s =>
    match mutexes s !! m with
    | Some st =>
        let r := std_mutex.try_lock st in
        Done r.1 (State (<[m := r.2]> (mutexes s)) (resources s) (events s))
    | None => Undefined
    end.

(** Test case [nullptr_does_not_lock]: what [m.try_lock()] returns. *)
Definition nullptr_does_not_lock : prog (state std_mutex.t unit) bool :=
  m <- declare_mutex std_mutex.init ;;
  ptr <- locked_ptr.ctor (value_of "char") nullptr m ;;
  scope_exit ptr
    (b <- call_try_lock m ;;
     call_unlock m ;;
     ret b).

(** Test case [avoid_undefined_behaviour_if_unlock_throws]. *)
Definition avoid_undefined_behaviour_if_unlock_throws
    : prog (state throwing_mutex.t Z) unit :=
  m <- declare_mutex throwing_mutex.init ;;
  answer <- declare_resource 42 ;;
  ptr <- locked_ptr.ctor int_type (addressof answer) m ;;
  scope_exit ptr (ret tt).

(** The store once one lock and one resource have been declared, both at
    the first address, and a wrapper over them. *)
Definition store_of {M R : Type} (m0 : M) (r0 : R) : state M R :=
  State {[1%positive := m0]} {[1%positive := r0]} [].

Definition wrapper_of (TR TM : cpp_type) : synchronized.t :=
  {| synchronized.Resource := TR; synchronized.Mutex := TM;
     synchronized.mutex_ := 1%positive; synchronized.resource_ := 1%positive |}.

(** The value a constructor argument denotes: the temporary itself, or the
    current value of the object it names. *)
Definition arg_value {A} (x : arg A) (heap : gmap addr A) : option A :=
  match x with
  | Lvalue a => heap !! a
  | Rvalue v => Some v
  end.

(** Test case [dereference]: [*guarded_ptr] for a [synchronized<int>]
    constructed from 42. *)
Definition dereference : prog (state std_mutex.t Z) Z :=
  synchronized <- synchronized.ctor_resource int_type (synchronized.default_Mutex int_type)
                    std_mutex.init (Rvalue 42) ;;
  guarded_ptr <- synchronized.lock synchronized ;;
  scope_exit guarded_ptr (locked_ptr.deref guarded_ptr).

(** With [std::mutex] as the lock: every lock object is held exactly when
    one live guard owns it, and no guard owns anything else. *)
Definition holds_match {R : Type} (env : guards) (s : state std_mutex.t R) : Prop :=
  forall m : addr,
    owners m env
    = match mutexes s !! m with
      | Some st => if std_mutex.held st then 1%nat else 0%nat
      | None => 0%nat
      end.

(** * Properties *)

(** ** The access operation and the life of one guard *)

Section Guard_facts.
Context {M R : Type} `{!Lockable.t M}.

Implicit Types (s : state M R) (g : locked_ptr.t) (w : synchronized.t).

Lemma addressof_not_null (a : addr) : is_null (addressof a) = false.
Proof. reflexivity. Qed.

Lemma owning_not_null g : locked_ptr.owning g <-> is_null (locked_ptr.ptr_ g) = false.
Proof.
  unfold locked_ptr.owning, is_null, nullptr.
  destruct (locked_ptr.ptr_ g); simpl; split; congruence.
Qed.

Lemma released_null g : locked_ptr.released g <-> is_null (locked_ptr.ptr_ g) = true.
Proof.
  unfold locked_ptr.released, is_null, nullptr.
  destruct (locked_ptr.ptr_ g); simpl; split; congruence.
Qed.

(** [lock()] is one call of [mutex_.lock()] followed by the return of the guard. *)
Lemma access_unfold c w s :
  access c w s = (call_lock (synchronized.mutex_ w) ;; ret (guard_of c w)) s.
Proof. destruct c; reflexivity. Qed.

Lemma call_lock_inv (m : addr) s :
  match call_lock m s with
  | Done _ s' => exists st st', mutexes s !! m = Some st /\ Lockable.lock st = Returns st'
                                /\ s' = record_call m st' (EvLock m None) s
  | Raised e s' => exists st st', mutexes s !! m = Some st /\ Lockable.lock st = Throws e st'
                                /\ s' = record_call m st' (EvLock m (Some e)) s
  | Hang => exists st, mutexes s !! m = Some st /\ Lockable.lock st = Blocks
  | Undefined => mutexes s !! m = None
                 \/ exists st, mutexes s !! m = Some st /\ Lockable.lock st = Misuse
  end.
Proof.
  unfold call_lock, call.
  destruct (mutexes s !! m) as [st|] eqn:Hm; [|by left].
  destruct (Lockable.lock st) eqn:Hl; eauto 6.
Qed.

Lemma call_unlock_inv (m : addr) s :
  match call_unlock m s with
  | Done _ s' => exists st st', mutexes s !! m = Some st /\ Lockable.unlock st = Returns st'
                                /\ s' = record_call m st' (EvUnlock m None) s
  | Raised e s' => exists st st', mutexes s !! m = Some st /\ Lockable.unlock st = Throws e st'
                                /\ s' = record_call m st' (EvUnlock m (Some e)) s
  | Hang => exists st, mutexes s !! m = Some st /\ Lockable.unlock st = Blocks
  | Undefined => mutexes s !! m = None
                 \/ exists st, mutexes s !! m = Some st /\ Lockable.unlock st = Misuse
  end.
Proof.
  unfold call_unlock, call.
  destruct (mutexes s !! m) as [st|] eqn:Hm; [|by left].
  destruct (Lockable.unlock st) eqn:Hl; eauto 6.
Qed.

(** C1: when the lock's acquire operation returns normally, either overload
    of the access operation returns a guard in the owning state, whose
    pointer is the address of the wrapper's resource member, after exactly
    one call of the acquire operation on the wrapper's lock; and it never
    returns a guard in any other way. *)
Theorem lock_returns_owning_guard (c : bool) w s (st : M) :
  mutexes s !! synchronized.mutex_ w = Some st ->
  (forall st', Lockable.lock st = Returns st' ->
     exists g,
       access c w s
         = Done g (record_call (synchronized.mutex_ w) st'
                     (EvLock (synchronized.mutex_ w) None) s)
       /\ locked_ptr.owning g
       /\ locked_ptr.ptr_ g = addressof (synchronized.resource_ w)
       /\ locked_ptr.mutex_ g = synchronized.mutex_ w)
  /\ (forall g s', access c w s = Done g s' ->
        locked_ptr.owning g
        /\ exists st', Lockable.lock st = Returns st'
             /\ s' = record_call (synchronized.mutex_ w) st'
                       (EvLock (synchronized.mutex_ w) None) s).
Proof.
  intros Hm. split.
  - intros st' Hl. exists (guard_of c w).
    rewrite access_unfold. unfold bind, call_lock, call. rewrite Hm, Hl.
    repeat split. by apply owning_not_null.
  - intros g s' Hacc. rewrite access_unfold in Hacc. unfold bind in Hacc.
    pose proof (call_lock_inv (synchronized.mutex_ w) s) as Hinv.
    destruct (call_lock (synchronized.mutex_ w) s) as [[] s1| | |]; try discriminate.
    destruct Hinv as (st0 & st' & Hm' & Hl & ->).
    injection Hacc as <- <-. rewrite Hm in Hm'. injection Hm' as <-.
    split; [by apply owning_not_null | eauto].
Qed.
Lemma count_if_app {A} (p : A -> bool) (l1 l2 : list A) :
  count_if p (l1 ++ l2) = (count_if p l1 + count_if p l2)%nat.
Proof. induction l1 as [|x l1 IH]; simpl; [done | rewrite IH; lia]. Qed.

(** The destructor is [noexcept] in fact: no exception ever leaves it. *)
Lemma dtor_never_raises g s e s' : locked_ptr.dtor g s <> Raised e s'.
Proof.
  unfold locked_ptr.dtor, try_catch_all.
  destruct (negb (is_null (locked_ptr.ptr_ g))); [|done].
  by destruct (call_unlock (locked_ptr.mutex_ g) s).
Qed.

(** Destruction of a released guard does nothing. *)
Lemma dtor_released g s : locked_ptr.released g -> locked_ptr.dtor g s = Done tt s.
Proof.
  intros Hg%released_null. unfold locked_ptr.dtor. by rewrite Hg.
Qed.

(** C3: when the release operation raises during the destruction of an
    owning guard, the destructor returns normally: the exception is
    discarded, the release was called once and is not retried, and the
    program goes on after the guard's scope as if nothing had been raised. *)
Theorem dtor_discards_release_failure g s (st st' : M) (e : exn) :
  locked_ptr.owning g ->
  mutexes s !! locked_ptr.mutex_ g = Some st ->
  Lockable.unlock st = Throws e st' ->
  locked_ptr.dtor g s
    = Done tt (record_call (locked_ptr.mutex_ g) st'
                 (EvUnlock (locked_ptr.mutex_ g) (Some e)) s)
  /\ (forall e' s', locked_ptr.dtor g s <> Raised e' s')
  /\ (forall A (body : prog (state M R) A) (a : A) s0 B (k : A -> prog (state M R) B),
        body s0 = Done a s ->
        (x <- scope_exit g body ;; k x) s0
          = k a (record_call (locked_ptr.mutex_ g) st'
                   (EvUnlock (locked_ptr.mutex_ g) (Some e)) s))
  /\ unlock_calls (locked_ptr.mutex_ g)
       (events (record_call (locked_ptr.mutex_ g) st'
                  (EvUnlock (locked_ptr.mutex_ g) (Some e)) s))
     = S (unlock_calls (locked_ptr.mutex_ g) (events s)).
Proof.
  intros Hg%owning_not_null Hm Hu.
  assert (Hd : locked_ptr.dtor g s
               = Done tt (record_call (locked_ptr.mutex_ g) st'
                            (EvUnlock (locked_ptr.mutex_ g) (Some e)) s)).
  { unfold locked_ptr.dtor. rewrite Hg. simpl.
    unfold try_catch_all, call_unlock, call. by rewrite Hm, Hu. }
  split; [exact Hd|]. split; [intros; apply dtor_never_raises|]. split.
  - intros A body a s0 B k Hb. unfold bind at 1, scope_exit. rewrite Hb.
    unfold bind. by rewrite Hd.
  - simpl. unfold unlock_calls. rewrite count_if_app. simpl.
    rewrite bool_decide_eq_true_2 by done. lia.
Qed.

(** C4: when the acquire operation raises during the access operation, the
    same exception leaves the access operation: no guard is returned, the
    acquire was called once, the release not at all, and the lock is in the
    state the failed acquire left it in. *)
Theorem lock_propagates_acquire_failure (c : bool) w s (st st' : M) (e : exn) :
  mutexes s !! synchronized.mutex_ w = Some st ->
  Lockable.lock st = Throws e st' ->
  exists s',
    access c w s = Raised e s'
    /\ (forall g s'', access c w s <> Done g s'')
    /\ mutexes s' !! synchronized.mutex_ w = Some st'
    /\ events s' = events s ++ [EvLock (synchronized.mutex_ w) (Some e)]
    /\ lock_calls (synchronized.mutex_ w) (events s')
       = S (lock_calls (synchronized.mutex_ w) (events s))
    /\ forall m, unlock_calls m (events s') = unlock_calls m (events s).
Proof.
  intros Hm Hl.
  exists (record_call (synchronized.mutex_ w) st'
            (EvLock (synchronized.mutex_ w) (Some e)) s).
  assert (Ha : access c w s
               = Raised e (record_call (synchronized.mutex_ w) st'
                             (EvLock (synchronized.mutex_ w) (Some e)) s)).
  { rewrite access_unfold. unfold bind, call_lock, call. by rewrite Hm, Hl. }
  split; [exact Ha|]. split; [intros g s''; by rewrite Ha|].
  simpl. split; [apply lookup_insert_eq|]. split; [done|]. split.
  - unfold lock_calls. rewrite count_if_app. simpl.
    rewrite bool_decide_eq_true_2 by done. lia.
  - intros m. unfold unlock_calls. rewrite count_if_app. simpl. lia.
Qed.

(** C5: a guard constructed from a null pointer is released from the start;
    neither its construction nor its destruction calls the lock or changes
    the store, so a later acquisition of the same lock, while the empty
    guard lives or after it is gone, goes exactly as it would have gone
    without the guard. *)
Theorem null_guard_has_no_effect (T : cpp_type) (m : addr) s :
  exists g,
    locked_ptr.ctor T nullptr m s = Done g s
    /\ locked_ptr.released g
    /\ locked_ptr.dtor g s = Done tt s
    /\ (_ <- locked_ptr.ctor T nullptr m ;; call_lock m) s = call_lock m s
    /\ (g' <- locked_ptr.ctor T nullptr m ;; locked_ptr.dtor g' ;; call_lock m) s
       = call_lock m s
    /\ forall (st st' : M),
         mutexes s !! m = Some st -> Lockable.lock st = Returns st' ->
         (g' <- locked_ptr.ctor T nullptr m ;; locked_ptr.dtor g' ;; call_lock m) s
         = Done tt (record_call m st' (EvLock m None) s).
Proof.
  exists {| locked_ptr.Resource := T; locked_ptr.ptr_ := nullptr; locked_ptr.mutex_ := m |}.
  repeat split.
  intros st st' Hm Hl. unfold bind; simpl. unfold call_lock, call.
  by rewrite Hm, Hl.
Qed.

(** Moving never touches the store. *)
Lemma move_ctor_unfold g s :
  locked_ptr.move_ctor g s
  = Done ({| locked_ptr.Resource := locked_ptr.Resource g;
             locked_ptr.ptr_ := locked_ptr.ptr_ g;
             locked_ptr.mutex_ := locked_ptr.mutex_ g |},
          {| locked_ptr.Resource := locked_ptr.Resource g;
             locked_ptr.ptr_ := nullptr;
             locked_ptr.mutex_ := locked_ptr.mutex_ g |}) s.
Proof. reflexivity. Qed.
End Guard_facts.

(** ** Sequences of operations on guards *)

Section Sequence_facts.
Context {M R : Type} `{!Lockable.t M}.

Implicit Types (s : state M R) (g : locked_ptr.t) (env : guards).

Lemma run_cons (o : op) (ops : list op) env s :
  run (o :: ops) env s
  = match step_caught o env s with
    | Done env' s' => run ops env' s'
    | Raised e s' => Raised e s'
    | Hang => Hang
    | Undefined => Undefined
    end.
Proof. reflexivity. Qed.

Lemma step_access (c : bool) (w : synchronized.t) env s g s' :
  access c w s = Done g s' ->
  step_caught (OpAccess c w) env s = Done (env ++ [Some g]) s'.
Proof. intros Ha. unfold step_caught, step, bind. by rewrite Ha. Qed.

Lemma step_move (i : nat) env s g :
  env !! i = Some (Some g) ->
  step_caught (OpMove i) env s
  = Done (<[i := Some {| locked_ptr.Resource := locked_ptr.Resource g;
                         locked_ptr.ptr_ := nullptr;
                         locked_ptr.mutex_ := locked_ptr.mutex_ g |}]> env
          ++ [Some {| locked_ptr.Resource := locked_ptr.Resource g;
                      locked_ptr.ptr_ := locked_ptr.ptr_ g;
                      locked_ptr.mutex_ := locked_ptr.mutex_ g |}]) s.
Proof. intros Hi. unfold step_caught, step. by rewrite Hi. Qed.

Lemma step_destroy (i : nat) env s g s' :
  env !! i = Some (Some g) ->
  locked_ptr.dtor g s = Done tt s' ->
  step_caught (OpDestroy i) env s = Done (<[i := None]> env) s'.
Proof. intros Hi Hd. unfold step_caught, step, bind. by rewrite Hi, Hd. Qed.

Lemma dtor_owning_returns g s (st st' : M) :
  locked_ptr.owning g ->
  mutexes s !! locked_ptr.mutex_ g = Some st ->
  Lockable.unlock st = Returns st' ->
  locked_ptr.dtor g s
  = Done tt (record_call (locked_ptr.mutex_ g) st'
               (EvUnlock (locked_ptr.mutex_ g) None) s).
Proof.
  intros Hg%owning_not_null Hm Hu. unfold locked_ptr.dtor. rewrite Hg. simpl.
  unfold try_catch_all, call_unlock, call. by rewrite Hm, Hu.
Qed.
Lemma count_if_insert {A} (p : A -> bool) (i : nat) (l : list A) (old new : A) :
  l !! i = Some old ->
  (count_if p (<[i := new]> l) + (if p old then 1 else 0)
   = count_if p l + (if p new then 1 else 0))%nat.
Proof.
  revert i. induction l as [|x l IH]; intros [|i] Hi; simpl in *; try discriminate.
  - injection Hi as ->. lia.
  - specialize (IH i Hi). lia.
Qed.

Lemma balanced_lock_returned env s (m : addr) (st' : M) g :
  locked_ptr.owning g -> locked_ptr.mutex_ g = m ->
  balanced env (events s) ->
  balanced (env ++ [Some g]) (events (record_call m st' (EvLock m None) s)).
Proof.
  intros Hg%owning_not_null Hgm Hb m0. specialize (Hb m0). simpl.
  unfold owners, acquired, unlock_calls in *. rewrite !count_if_app. simpl.
  rewrite Hg, Hgm. simpl. destruct (bool_decide (m = m0)); simpl; lia.
Qed.

Lemma balanced_lock_raised env s (m : addr) (st' : M) (e : exn) :
  balanced env (events s) ->
  balanced env (events (record_call m st' (EvLock m (Some e)) s)).
Proof.
  intros Hb m0. specialize (Hb m0). simpl.
  unfold owners, acquired, unlock_calls in *. rewrite !count_if_app. simpl. lia.
Qed.

Lemma balanced_unlock env s (i : nat) g (st' : M) (r : option exn) :
  env !! i = Some (Some g) -> locked_ptr.owning g ->
  balanced env (events s) ->
  balanced (<[i := None]> env)
    (events (record_call (locked_ptr.mutex_ g) st' (EvUnlock (locked_ptr.mutex_ g) r) s)).
Proof.
  intros Hi Hg%owning_not_null Hb m0. specialize (Hb m0). simpl.
  pose proof (count_if_insert (is_owner m0) i env (Some g) None Hi) as Hc.
  unfold owners, acquired, unlock_calls in *. rewrite !count_if_app. simpl in *.
  rewrite Hg in Hc. simpl in Hc.
  destruct (bool_decide (locked_ptr.mutex_ g = m0)); lia.
Qed.

Lemma balanced_move env s (i : nat) g :
  env !! i = Some (Some g) ->
  balanced env (events s) ->
  balanced (<[i := Some {| locked_ptr.Resource := locked_ptr.Resource g;
                           locked_ptr.ptr_ := nullptr;
                           locked_ptr.mutex_ := locked_ptr.mutex_ g |}]> env
            ++ [Some {| locked_ptr.Resource := locked_ptr.Resource g;
                        locked_ptr.ptr_ := locked_ptr.ptr_ g;
                        locked_ptr.mutex_ := locked_ptr.mutex_ g |}]) (events s).
Proof.
  intros Hi Hb m0. specialize (Hb m0).
  pose proof (count_if_insert (is_owner m0) i env (Some g)
                (Some {| locked_ptr.Resource := locked_ptr.Resource g;
                         locked_ptr.ptr_ := nullptr;
                         locked_ptr.mutex_ := locked_ptr.mutex_ g |}) Hi) as Hc.
  unfold owners in *. rewrite count_if_app. simpl in *.
  destruct (negb (is_null (locked_ptr.ptr_ g)) && bool_decide (locked_ptr.mutex_ g = m0));
    lia.
Qed.

Lemma balanced_released_added env (tr : list event) g :
  locked_ptr.released g -> balanced env tr -> balanced (env ++ [Some g]) tr.
Proof.
  intros Hg%released_null Hb m0. specialize (Hb m0).
  unfold owners in *. rewrite count_if_app. simpl. rewrite Hg. simpl. lia.
Qed.

Lemma balanced_released_destroyed env (tr : list event) (i : nat) g :
  env !! i = Some (Some g) -> locked_ptr.released g ->
  balanced env tr -> balanced (<[i := None]> env) tr.
Proof.
  intros Hi Hg%released_null Hb m0. specialize (Hb m0).
  pose proof (count_if_insert (is_owner m0) i env (Some g) None Hi) as Hc.
  unfold owners in *. simpl in Hc. rewrite Hg in Hc. simpl in Hc. lia.
Qed.

(** Construction of a guard keeps the balance, whether it returns or raises. *)
Lemma ctor_balanced (T : cpp_type) (ptr : pointer) (m : addr) env s :
  balanced env (events s) ->
  match locked_ptr.ctor T ptr m s with
  | Done g s' => balanced (env ++ [Some g]) (events s')
  | Raised _ s' => balanced env (events s')
  | Hang | Undefined => True
  end.
Proof.
  intros Hb. unfold locked_ptr.ctor.
  destruct (is_null ptr) eqn:Hp; simpl.
  - apply balanced_released_added; [|done]. by apply released_null.
  - unfold bind. pose proof (call_lock_inv m s) as Hinv.
    destruct (call_lock m s) as [[] s1|e s1| |]; [| |done|done].
    + destruct Hinv as (st & st' & _ & _ & ->).
      apply balanced_lock_returned; [by apply owning_not_null|done|done].
    + destruct Hinv as (st & st' & _ & _ & ->). by apply balanced_lock_raised.
Qed.

(** Destruction of a live guard keeps the balance; it never raises. *)
Lemma dtor_balanced (i : nat) g env s :
  env !! i = Some (Some g) ->
  balanced env (events s) ->
  match locked_ptr.dtor g s with
  | Done _ s' => balanced (<[i := None]> env) (events s')
  | Raised _ _ => False
  | Hang | Undefined => True
  end.
Proof.
  intros Hi Hb. unfold locked_ptr.dtor.
  destruct (is_null (locked_ptr.ptr_ g)) eqn:Hp; simpl.
  - apply (balanced_released_destroyed env _ i g); [done| |done]. by apply released_null.
  - unfold try_catch_all. pose proof (call_unlock_inv (locked_ptr.mutex_ g) s) as Hinv.
    destruct (call_unlock (locked_ptr.mutex_ g) s) as [[] s1|e s1| |]; [| |done|done];
      destruct Hinv as (st & st' & _ & _ & ->);
      (apply balanced_unlock; [done|by apply owning_not_null|done]).
Qed.

Lemma step_caught_balanced (o : op) env s env' s' :
  balanced env (events s) ->
  step_caught o env s = Done env' s' ->
  balanced env' (events s').
Proof.
  intros Hb Hs. unfold step_caught, step in Hs.
  destruct o as [c w|T ptr m|i|i].
  - pose proof (ctor_balanced
                  (if c then synchronized.locked_const_ptr w
                   else synchronized.locked_mutable_ptr w)
                  (addressof (synchronized.resource_ w)) (synchronized.mutex_ w)
                  env s Hb) as Hc.
    unfold bind in Hs.
    replace (access c w s) with
      (locked_ptr.ctor (if c then synchronized.locked_const_ptr w
                        else synchronized.locked_mutable_ptr w)
         (addressof (synchronized.resource_ w)) (synchronized.mutex_ w) s) in Hs
      by (by destruct c).
    destruct (locked_ptr.ctor _ _ _ s) as [g s1|e s1| |]; try discriminate;
      simpl in Hs; by injection Hs as <- <-.
  - pose proof (ctor_balanced T ptr m env s Hb) as Hc. unfold bind in Hs.
    destruct (locked_ptr.ctor T ptr m s) as [g s1|e s1| |]; try discriminate;
      simpl in Hs; by injection Hs as <- <-.
  - destruct (env !! i) as [[g|]|] eqn:Hi; try discriminate.
    simpl in Hs. injection Hs as <- <-. by apply balanced_move.
  - destruct (env !! i) as [[g|]|] eqn:Hi; try discriminate.
    pose proof (dtor_balanced i g env s Hi Hb) as Hd. unfold bind in Hs.
    destruct (locked_ptr.dtor g s) as [[] s1|e s1| |]; try discriminate; [|done].
    simpl in Hs. by injection Hs as <- <-.
Qed.

Lemma run_balanced (ops : list op) env s env' s' :
  balanced env (events s) ->
  run ops env s = Done env' s' ->
  balanced env' (events s').
Proof.
  revert env s. induction ops as [|o ops IH]; intros env s Hb Hr.
  - injection Hr as <- <-. done.
  - rewrite run_cons in Hr.
    destruct (step_caught o env s) as [env1 s1| | |] eqn:Hs; try discriminate.
    eapply IH; [|exact Hr]. by eapply step_caught_balanced.
Qed.

(** C10: move construction from a released guard returns a released guard,
    leaves the source released and the store untouched, and destroying
    either of them does nothing; and after any sequence of accesses,
    constructions, moves and destructions, begun without guards and with an
    empty log, the release operation of a lock has been called at most as
    often as its acquire operation has returned. *)
Theorem released_move_is_noop :
  (forall g s,
     locked_ptr.released g ->
     exists g' other',
       locked_ptr.move_ctor g s = Done (g', other') s
       /\ locked_ptr.released g' /\ locked_ptr.released other'
       /\ locked_ptr.dtor g' s = Done tt s
       /\ locked_ptr.dtor other' s = Done tt s)
  /\ (forall (ops : list op) s env' s',
        events s = [] ->
        run ops [] s = Done env' s' ->
        forall m : addr,
          (unlock_calls m (events s') + owners m env' = acquired m (events s'))%nat
          /\ (unlock_calls m (events s') <= acquired m (events s'))%nat).
Proof.
  split.
  - intros g s Hg. eexists _, _. rewrite move_ctor_unfold.
    split; [reflexivity|]. split; [exact Hg|]. split; [reflexivity|].
    split; [|reflexivity]. by apply dtor_released.
  - intros ops s env' s' Hev Hr m.
    assert (Hb : balanced [] (events s)) by (rewrite Hev; intros m0; reflexivity).
    pose proof (run_balanced ops [] s env' s' Hb Hr m). lia.
Qed.
End Sequence_facts.

(** ** Moves *)

(** C2: move construction from an owning guard returns an owning guard with
    the same pointer and lock, leaves the source released, and does not
    touch the store (no acquire, no release); hence one guard obtained from
    a wrapper, moved twice (the second move from the first copy, [j = 1], or
    from the moved-from original as test case [move_ptr] does, [j = 0]) and
    then destroyed together with both copies makes a counting lock read one
    acquire and one release. *)
Theorem move_transfers_hold :
  (forall (M R : Type) (L : Lockable.t M) (g : locked_ptr.t) (s : state M R),
     locked_ptr.owning g ->
     exists g' other',
       locked_ptr.move_ctor g s = Done (g', other') s
       /\ locked_ptr.owning g'
       /\ locked_ptr.ptr_ g' = locked_ptr.ptr_ g
       /\ locked_ptr.mutex_ g' = locked_ptr.mutex_ g
       /\ locked_ptr.released other')
  /\ (forall (R : Type) (c : bool) (w : synchronized.t)
             (s : state counting_mutex.t R) (j : nat),
        mutexes s !! synchronized.mutex_ w = Some counting_mutex.init ->
        (j < 2)%nat ->
        exists s',
          run [OpAccess c w; OpMove 0; OpMove j; OpDestroy 2; OpDestroy 1; OpDestroy 0]
              [] s
            = Done [None; None; None] s'
          /\ mutexes s' !! synchronized.mutex_ w
             = Some {| counting_mutex.count_lock := 1; counting_mutex.count_unlock := 1 |}
          /\ events s' = events s ++ [EvLock (synchronized.mutex_ w) None;
                                      EvUnlock (synchronized.mutex_ w) None]).
Proof.
  split.
  - intros M R L g s Hg. eexists _, _. rewrite move_ctor_unfold.
    split; [reflexivity|]. by repeat split.
  - intros R c w s j Hm Hj.
    set (m := synchronized.mutex_ w) in *.
    set (s1 := record_call m (counting_mutex.Build_t 1 0) (EvLock m None) s).
    assert (Hacc : access c w s = Done (guard_of c w) s1).
    { rewrite access_unfold. unfold bind, call_lock, call. fold m. by rewrite Hm. }
    assert (Hun : locked_ptr.dtor (guard_of c w) s1
                  = Done tt (record_call m (counting_mutex.Build_t 1 1) (EvUnlock m None) s1)).
    { apply (dtor_owning_returns (guard_of c w) s1 (counting_mutex.Build_t 1 0)); [done| |done].
      apply lookup_insert_eq. }
    exists (record_call m (counting_mutex.Build_t 1 1) (EvUnlock m None) s1).
    split; [|split].
    + rewrite run_cons, (step_access _ _ _ _ _ _ Hacc).
      destruct j as [|[|j]]; [| |lia];
        do 2 (rewrite run_cons; erewrite step_move; [|reflexivity]);
        do 3 (rewrite run_cons;
              erewrite step_destroy; [|reflexivity|first [exact Hun|reflexivity]]);
        reflexivity.
    + simpl. by rewrite lookup_insert_eq.
    + simpl. by rewrite <- app_assoc.
Qed.

(** ** Wrappers: ownership, aliasing and const access *)

Section Wrapper_facts.
Context {M R : Type} `{!Lockable.t M}.

Implicit Types (s : state M R) (g : locked_ptr.t) (w : synchronized.t).

Lemma init_member_value {A} (T : cpp_type) (x : arg A) (heap heap' : gmap addr A) (a : addr) :
  is_lvalue_reference T = false ->
  init_member T x heap = Some (a, heap') ->
  a ∉ dom heap.
Proof.
  unfold init_member. intros ->.
  destruct x as [b|v]; [destruct (heap !! b)|]; intros [= <- <-]; apply is_fresh.
Qed.

Lemma init_member_reference {A} (T : cpp_type) (x : arg A) (heap heap' : gmap addr A) (a : addr) :
  is_lvalue_reference T = true ->
  init_member T x heap = Some (a, heap') ->
  x = Lvalue a /\ heap' = heap /\ is_Some (heap !! a).
Proof.
  unfold init_member. intros ->.
  destruct x as [b|v]; [|done].
  destruct (decide (is_Some (heap !! b))); [|done]. by intros [= <- <-].
Qed.

Lemma ctor_resource_mutex_inv (TR TM : cpp_type) (x : arg R) (y : arg M) s w s' :
  synchronized.ctor_resource_mutex TR TM x y s = Done w s' ->
  synchronized.Resource w = TR /\ synchronized.Mutex w = TM
  /\ init_member TM y (mutexes s) = Some (synchronized.mutex_ w, mutexes s')
  /\ init_member TR x (resources s) = Some (synchronized.resource_ w, resources s')
  /\ events s' = events s.
Proof.
  unfold synchronized.ctor_resource_mutex, synchronized.init_members.
  destruct (is_lvalue_reference TM); [done|].
  destruct (init_member TM y (mutexes s)) as [[m ms]|]; [|done].
  destruct (init_member TR x (resources s)) as [[r rs]|]; [|done].
  by intros [= <- <-].
Qed.






(** Without a reference-typed [Mutex] the converted wrapper is no alias: its
    lock is a new object, a copy of the original's. *)
Lemma conversion_to_value_mutex_copies_lock (other : synchronized.t) (TR TM : cpp_type)
    s w s' :
  is_lvalue_reference TM = false ->
  synchronized.convert TR TM other s = Done w s' ->
  synchronized.mutex_ w ∉ dom (mutexes s).
Proof.
  intros HTM (_ & _ & Hm & _)%ctor_resource_mutex_inv.
  by apply init_member_value in Hm.
Qed.

Lemma resolve_const_only {A} (overloads : list (qualifier * A)) (o : qualifier * A) :
  resolve true overloads = Some o -> o.1 = Const.
Proof.
  unfold resolve. simpl.
  destruct (filter (fun o => o.1 = Const) overloads) as [|o' l] eqn:Hf.
  - intros Hh%head_Some_elem_of. apply list_elem_of_filter in Hh as [Hv _].
    by destruct (o.1).
  - intros [= <-].
    assert (Hin : o' ∈ filter (fun o => o.1 = Const) overloads) by (rewrite Hf; left).
    by apply list_elem_of_filter in Hin as [? _].
Qed.

(** C8, as amended: both overloads of the access operation acquire the same
    lock, the wrapper's.  Through the guard of the const overload only
    const-qualified members can be selected, and of two overloads that
    differ in constness the const one is.  Through the guard of the
    non-const overload the non-const one is selected, unless the wrapper's
    [Resource] parameter is itself const-qualified: then it is the const
    one again. *)
Theorem const_correctness w s (st st' : M) :
  mutexes s !! synchronized.mutex_ w = Some st ->
  Lockable.lock st = Returns st' ->
  exists g_const g_mutable s1,
    synchronized.lock_const w s = Done g_const s1
    /\ synchronized.lock w s = Done g_mutable s1
    /\ s1 = record_call (synchronized.mutex_ w) st' (EvLock (synchronized.mutex_ w) None) s
    /\ locked_ptr.mutex_ g_const = synchronized.mutex_ w
    /\ locked_ptr.mutex_ g_mutable = synchronized.mutex_ w
    /\ locked_ptr.ptr_ g_const = locked_ptr.ptr_ g_mutable
    /\ (forall A (overloads : list (qualifier * A)) o,
          select_member g_const overloads = Some o -> o.1 = Const)
    /\ select_member g_const is_const_overloads = Some (Const, true)
    /\ select_member g_mutable is_const_overloads
       = Some (if ty_const (synchronized.Resource w) then (Const, true)
               else (NonConst, false)).
Proof.
  intros Hm Hl.
  exists (guard_of true w), (guard_of false w),
    (record_call (synchronized.mutex_ w) st' (EvLock (synchronized.mutex_ w) None) s).
  split; [|split; [|split; [reflexivity|]]].
  - change (access true w s = Done (guard_of true w)
              (record_call (synchronized.mutex_ w) st' (EvLock (synchronized.mutex_ w) None) s)).
    rewrite access_unfold. unfold bind, call_lock, call. by rewrite Hm, Hl.
  - change (access false w s = Done (guard_of false w)
              (record_call (synchronized.mutex_ w) st' (EvLock (synchronized.mutex_ w) None) s)).
    rewrite access_unfold. unfold bind, call_lock, call. by rewrite Hm, Hl.
  - do 3 (split; [done|]). split; [|split].
    + intros A overloads o. apply resolve_const_only.
    + reflexivity.
    + unfold select_member. simpl. by destruct (ty_const (synchronized.Resource w)).
Qed.
End Wrapper_facts.

(** ** The usage scenario with a counting lock *)

(** C9: a wrapper of a [std::vector<int>] holding [42,42,42,42,42] with a
    counting lock whose counters are zero.  After the block that acquires a
    guard, sets index 3 to 4 and sorts through the guard, the counters of
    the lock both read 1, and an access made then yields a guard through
    which the sequence reads [4,42,42,42,42]. *)
Theorem usage_scenario (w : synchronized.t) (s : state counting_mutex.t (list Z)) :
  synchronized.Resource w = vector_int ->
  mutexes s !! synchronized.mutex_ w = Some counting_mutex.init ->
  resources s !! synchronized.resource_ w = Some (replicate 5 42) ->
  exists s1,
    multiple_operations w s = Done tt s1
    /\ mutexes s1 !! synchronized.mutex_ w
       = Some {| counting_mutex.count_lock := 1; counting_mutex.count_unlock := 1 |}
    /\ events s1 = events s ++ [EvLock (synchronized.mutex_ w) None;
                                EvUnlock (synchronized.mutex_ w) None]
    /\ exists g s2,
         synchronized.lock w s1 = Done g s2
         /\ locked_ptr.deref g s2 = Done [4; 42; 42; 42; 42] s2.
Proof.
  intros HT Hm Hr.
  set (m := synchronized.mutex_ w) in *. set (r := synchronized.resource_ w) in *.
  unfold multiple_operations, bind.
  change (synchronized.lock w s) with (access false w s). rewrite access_unfold.
  unfold bind, call_lock, call. fold m. rewrite Hm. simpl.
  unfold scope_exit, bind, call_member, select_member. simpl. rewrite HT. simpl.
  fold r. rewrite Hr. simpl. rewrite lookup_insert_eq. simpl.
  unfold locked_ptr.dtor, try_catch_all, call_unlock, call. simpl.
  fold m. rewrite lookup_insert_eq. simpl.
  eexists. split; [reflexivity|]. simpl.
  split; [by rewrite lookup_insert_eq|]. split; [by rewrite <- app_assoc|].
  change (synchronized.lock w) with (access (M:=counting_mutex.t) (R:=list Z) false w).
  eexists _, _. rewrite access_unfold. unfold bind, call_lock, call. simpl. fold m.
  rewrite lookup_insert_eq. simpl. split; [reflexivity|].
  unfold locked_ptr.deref. simpl. fold r. by rewrite lookup_insert_eq.
Qed.

(** ** The test cases *)

Lemma std_mutex_exclusive : exclusive std_mutex.t.
Proof.
  intros [[]] st'; simpl; unfold std_mutex.lock; simpl; [done|]. by intros [= <-].
Qed.

(** [usage]: the element read through a temporary guard is 42. *)
Example member_access_checks :
  returned (member_access (wrapper_of vector_int synchronized.std_mutex_type)
              (store_of std_mutex.init (replicate 5 42))) = Some 42.
Proof. reflexivity. Qed.

(** [synchronized_access] instantiates [synchronized<int, mock_mutex&>], a
    class with a [mutable] reference member: nothing is constructed. *)
Example synchronized_access_checks :
  synchronized_access empty_state = Undefined.
Proof. reflexivity. Qed.

(** [maintain_const_correctness]: [is_const()] is false through the mutable
    wrapper and true through the const one. *)
Example maintain_const_correctness_checks :
  returned (maintain_const_correctness empty_state) = Some (false, false, true, true).
Proof. reflexivity. Qed.

(** [guard_base_class] instantiates [synchronized<parent &>], whose lock
    defaults to [std::mutex &]: nothing is constructed. *)
Example guard_base_class_checks :
  returned (guard_base_class empty_state) = None.
Proof. reflexivity. Qed.

(** [conversion]: [child_instance] is constructed, [base_reference], a
    [synchronized<parent &>], is not. *)
Example conversion_checks :
  returned (conversion empty_state) = None
  /\ returned (synchronized.ctor_default child (synchronized.default_Mutex child)
                 std_mutex.init tt (empty_state (M:=std_mutex.t) (R:=unit)))
     = Some (wrapper_of child synchronized.std_mutex_type).
Proof. split; reflexivity. Qed.

(** [move_ptr] instantiates [synchronized<int, mock_mutex &>]: nothing is
    constructed.  What the block does with a guard is [move_transfers_hold]. *)
Example move_ptr_checks :
  move_ptr empty_state = Undefined.
Proof. reflexivity. Qed.

(** [nullptr_does_not_lock]: [m.try_lock()] succeeds while the empty guard
    lives. *)
Example nullptr_does_not_lock_checks :
  returned (nullptr_does_not_lock empty_state) = Some true.
Proof. reflexivity. Qed.

(** [avoid_undefined_behaviour_if_unlock_throws]: the block is left
    normally, after one call of [unlock()] that raised. *)
Example unlock_throws_checks :
  exists s,
    avoid_undefined_behaviour_if_unlock_throws empty_state = Done tt s
    /\ events s = [EvLock 1%positive None;
                   EvUnlock 1%positive (Some (runtime_error "out of cheese exception"))].
Proof. eexists. split; reflexivity. Qed.

(** ** Where the code departs from the wording of the specification *)

(** C8, as worded, fails: [base_const_reference] of test case [conversion],
    a [synchronized<parent const &>] that is not const itself, hands out a
    guard through which the const overload is selected. *)
Lemma const_resource_selects_const_overload :
  ~ (forall (w : synchronized.t) (s : state std_mutex.t unit)
            (g : locked_ptr.t) (s' : state std_mutex.t unit),
       synchronized.lock w s = Done g s' ->
       select_member g is_const_overloads = Some (NonConst, false)).
Proof.
  intros Hall.
  specialize (Hall {| synchronized.Resource := lref_to (add_const parent);
                      synchronized.Mutex := synchronized.default_Mutex
                                              (lref_to (add_const parent));
                      synchronized.mutex_ := 1%positive;
                      synchronized.resource_ := 1%positive |}
                (State {[1%positive := std_mutex.init]} {[1%positive := tt]} [])
                _ _ eq_refl).
  discriminate Hall.
Qed.

(** ** The theorems at concrete inputs *)

Lemma lock_returns_owning_guard_witness :
  mutexes (store_of flag_mutex.init 42) !! synchronized.mutex_ (wrapper_of int_type mock_mutex)
    = Some flag_mutex.init
  /\ exists g,
       access true (wrapper_of int_type mock_mutex) (store_of flag_mutex.init 42)
         = Done g (State {[1%positive := {| flag_mutex.is_locked := true |}]}
                         {[1%positive := 42]} [EvLock 1%positive None])
       /\ locked_ptr.owning g.
Proof.
  split; [reflexivity|].
  destruct (lock_returns_owning_guard true (wrapper_of int_type mock_mutex)
              (store_of flag_mutex.init 42) flag_mutex.init ltac:(reflexivity)) as [Hret _].
  destruct (Hret _ ltac:(reflexivity)) as (g & Hdone & Hown & _).
  exists g. split; [exact Hdone | exact Hown].
Defined.

Lemma move_transfers_hold_witness :
  locked_ptr.owning (guard_of false (wrapper_of int_type (lref_to mock_mutex)))
  /\ mutexes (store_of counting_mutex.init 42)
       !! synchronized.mutex_ (wrapper_of int_type (lref_to mock_mutex))
     = Some counting_mutex.init
  /\ (0 < 2)%nat
  /\ (exists g' other',
        locked_ptr.move_ctor (guard_of false (wrapper_of int_type (lref_to mock_mutex)))
            (store_of counting_mutex.init 42)
          = Done (g', other') (store_of counting_mutex.init 42)
        /\ locked_ptr.owning g' /\ locked_ptr.released other')
  /\ exists s',
       run [OpAccess false (wrapper_of int_type (lref_to mock_mutex));
            OpMove 0; OpMove 0; OpDestroy 2; OpDestroy 1; OpDestroy 0] []
           (store_of counting_mutex.init 42)
         = Done [None; None; None] s'
       /\ mutexes s' !! 1%positive
          = Some {| counting_mutex.count_lock := 1; counting_mutex.count_unlock := 1 |}.
Proof.
  split; [discriminate|]. split; [reflexivity|]. split; [lia|]. split.
  - destruct (proj1 move_transfers_hold counting_mutex.t Z _
                (guard_of false (wrapper_of int_type (lref_to mock_mutex)))
                (store_of counting_mutex.init 42) ltac:(discriminate))
      as (g' & o' & Hmove & Hown & _ & _ & Hrel).
    exists g', o'. split; [exact Hmove|]. split; [exact Hown | exact Hrel].
  - destruct (proj2 move_transfers_hold Z false (wrapper_of int_type (lref_to mock_mutex))
                (store_of counting_mutex.init 42) 0%nat ltac:(reflexivity) ltac:(lia))
      as (s' & Hrun & Hcount & _).
    exists s'. split; [exact Hrun | exact Hcount].
Defined.

Lemma dtor_discards_release_failure_witness :
  locked_ptr.owning {| locked_ptr.Resource := int_type; locked_ptr.ptr_ := addressof 1%positive;
                       locked_ptr.mutex_ := 1%positive |}
  /\ Lockable.unlock throwing_mutex.init
     = Throws (runtime_error "out of cheese exception") throwing_mutex.init
  /\ locked_ptr.dtor {| locked_ptr.Resource := int_type; locked_ptr.ptr_ := addressof 1%positive;
                        locked_ptr.mutex_ := 1%positive |}
       (store_of throwing_mutex.init 42)
     = Done tt (State {[1%positive := throwing_mutex.init]} {[1%positive := 42]}
                  [EvUnlock 1%positive (Some (runtime_error "out of cheese exception"))]).
Proof.
  split; [discriminate|]. split; [reflexivity|].
  exact (proj1 (dtor_discards_release_failure
                  {| locked_ptr.Resource := int_type; locked_ptr.ptr_ := addressof 1%positive;
                     locked_ptr.mutex_ := 1%positive |}
                  (store_of throwing_mutex.init 42)
                  throwing_mutex.init throwing_mutex.init
                  (runtime_error "out of cheese exception")
                  ltac:(discriminate) ltac:(reflexivity) ltac:(reflexivity))).
Defined.

Lemma lock_propagates_acquire_failure_witness :
  Lockable.lock failing_mutex.init
    = Throws (system_error "resource unavailable") {| failing_mutex.attempts := 1 |}
  /\ exists s',
       access false (wrapper_of int_type mock_mutex) (store_of failing_mutex.init 42)
         = Raised (system_error "resource unavailable") s'
       /\ mutexes s' !! 1%positive = Some {| failing_mutex.attempts := 1 |}.
Proof.
  split; [reflexivity|].
  destruct (lock_propagates_acquire_failure false (wrapper_of int_type mock_mutex)
              (store_of failing_mutex.init 42) failing_mutex.init
              {| failing_mutex.attempts := 1 |} (system_error "resource unavailable")
              ltac:(reflexivity) ltac:(reflexivity)) as (s' & Hraised & _ & Hst & _).
  exists s'. split; [exact Hraised | exact Hst].
Defined.

Lemma null_guard_has_no_effect_witness :
  Lockable.lock std_mutex.init = Returns {| std_mutex.held := true |}
  /\ (g <- locked_ptr.ctor (value_of "char") nullptr 1%positive ;;
      locked_ptr.dtor g ;; call_lock 1%positive) (store_of std_mutex.init tt)
     = Done tt (record_call 1%positive {| std_mutex.held := true |}
                  (EvLock 1%positive None) (store_of std_mutex.init tt)).
Proof.
  split; [reflexivity|].
  destruct (null_guard_has_no_effect (value_of "char") 1%positive
              (store_of std_mutex.init tt)) as (g & _ & _ & _ & _ & _ & Hfree).
  exact (Hfree std_mutex.init {| std_mutex.held := true |} ltac:(reflexivity) ltac:(reflexivity)).
Defined.



Lemma const_correctness_witness :
  Lockable.lock std_mutex.init = Returns {| std_mutex.held := true |}
  /\ exists g_const g_mutable s1,
       synchronized.lock_const (wrapper_of test synchronized.std_mutex_type)
           (store_of std_mutex.init tt) = Done g_const s1
       /\ synchronized.lock (wrapper_of test synchronized.std_mutex_type)
           (store_of std_mutex.init tt) = Done g_mutable s1
       /\ select_member g_const is_const_overloads = Some (Const, true)
       /\ select_member g_mutable is_const_overloads = Some (NonConst, false).
Proof.
  split; [reflexivity|].
  destruct (const_correctness (wrapper_of test synchronized.std_mutex_type)
              (store_of std_mutex.init tt) std_mutex.init {| std_mutex.held := true |}
              ltac:(reflexivity) ltac:(reflexivity))
    as (gc & gm & s1 & Hc & Hm & _ & _ & _ & _ & _ & Hsc & Hsm).
  exists gc, gm, s1. repeat split; [exact Hc | exact Hm | exact Hsc | exact Hsm].
Defined.

Lemma usage_scenario_witness :
  synchronized.Resource (wrapper_of vector_int mock_mutex) = vector_int
  /\ resources (store_of counting_mutex.init (replicate 5 42)) !! 1%positive
     = Some [42; 42; 42; 42; 42]
  /\ exists s1,
       multiple_operations (wrapper_of vector_int mock_mutex)
           (store_of counting_mutex.init (replicate 5 42)) = Done tt s1
       /\ mutexes s1 !! 1%positive
          = Some {| counting_mutex.count_lock := 1; counting_mutex.count_unlock := 1 |}
       /\ resources s1 !! 1%positive = Some [4; 42; 42; 42; 42].
Proof.
  split; [reflexivity|]. split; [reflexivity|].
  destruct (usage_scenario (wrapper_of vector_int mock_mutex)
              (store_of counting_mutex.init (replicate 5 42)) ltac:(reflexivity) ltac:(reflexivity) ltac:(reflexivity))
    as (s1 & Hrun & Hcount & _ & _).
  exists s1. split; [exact Hrun|]. split; [exact Hcount|].
  revert Hrun. vm_compute. intros [= <-]. reflexivity.
Defined.

Lemma released_move_is_noop_witness :
  locked_ptr.released {| locked_ptr.Resource := int_type; locked_ptr.ptr_ := nullptr;
                         locked_ptr.mutex_ := 1%positive |}
  /\ events (store_of counting_mutex.init 42) = []
  /\ (exists g' other',
        locked_ptr.move_ctor {| locked_ptr.Resource := int_type; locked_ptr.ptr_ := nullptr;
                                locked_ptr.mutex_ := 1%positive |}
            (store_of counting_mutex.init 42)
          = Done (g', other') (store_of counting_mutex.init 42)
        /\ locked_ptr.released g' /\ locked_ptr.released other')
  /\ (unlock_calls 1%positive [EvLock 1%positive None; EvUnlock 1%positive None]
      <= acquired 1%positive [EvLock 1%positive None; EvUnlock 1%positive None])%nat.
Proof.
  split; [reflexivity|]. split; [reflexivity|]. split.
  - destruct (proj1 (released_move_is_noop (M:=counting_mutex.t) (R:=Z))
                {| locked_ptr.Resource := int_type; locked_ptr.ptr_ := nullptr;
                   locked_ptr.mutex_ := 1%positive |}
                (store_of counting_mutex.init 42) ltac:(reflexivity))
      as (g' & o' & Hmove & Hg & Ho & _).
    exists g', o'. split; [exact Hmove|]. split; [exact Hg | exact Ho].
  - exact (proj2 (proj2 (released_move_is_noop (M:=counting_mutex.t) (R:=Z))
                    [OpAccess false (wrapper_of int_type (lref_to mock_mutex));
                     OpMove 0; OpMove 0; OpDestroy 2; OpDestroy 1; OpDestroy 0]
                    (store_of counting_mutex.init 42) [None; None; None]
                    (State {[1%positive := {| counting_mutex.count_lock := 1;
                                              counting_mutex.count_unlock := 1 |}]}
                           {[1%positive := 42]}
                           [EvLock 1%positive None; EvUnlock 1%positive None])
                    ltac:(reflexivity) ltac:(reflexivity) 1%positive)).
Defined.

(** * Further properties of the code *)

(** ** Construction *)

Section Construction_facts.
Context {M R : Type} `{!Lockable.t M}.

Implicit Types (s : state M R) (g : locked_ptr.t) (w : synchronized.t).

Lemma init_member_value_spec {A} (T : cpp_type) (x : arg A) (heap : gmap addr A) (v : A) :
  is_lvalue_reference T = false ->
  arg_value x heap = Some v ->
  init_member T x heap = Some (fresh (dom heap), <[fresh (dom heap) := v]> heap).
Proof.
  unfold init_member, arg_value. intros -> Hv.
  destruct x as [a|v0]; [by rewrite Hv | by injection Hv as ->].
Qed.

Lemma fresh_not_live {A} (heap : gmap addr A) : heap !! fresh (dom heap) = None.
Proof. apply not_elem_of_dom, is_fresh. Qed.

(** X1: the one-argument constructor of a wrapper that holds both members by
    value always succeeds; the wrapper gets a lock object and a resource
    object that did not exist before, the lock default constructed and the
    resource a copy of the argument; every object that existed keeps its
    value and no call is made on any lock. *)
Theorem ctor_resource_creates_own_objects (TR TM : cpp_type) (m0 : M) (x : arg R) (v : R) s :
  is_lvalue_reference TR = false ->
  is_lvalue_reference TM = false ->
  arg_value x (resources s) = Some v ->
  exists w s',
    synchronized.ctor_resource TR TM m0 x s = Done w s'
    /\ synchronized.Resource w = TR /\ synchronized.Mutex w = TM
    /\ mutexes s !! synchronized.mutex_ w = None
    /\ resources s !! synchronized.resource_ w = None
    /\ mutexes s' !! synchronized.mutex_ w = Some m0
    /\ resources s' !! synchronized.resource_ w = Some v
    /\ (forall a, a <> synchronized.mutex_ w -> mutexes s' !! a = mutexes s !! a)
    /\ (forall a, a <> synchronized.resource_ w -> resources s' !! a = resources s !! a)
    /\ events s' = events s.
Proof.
  intros HTR HTM Hv.
  unfold synchronized.ctor_resource, synchronized.ctor_resource_mutex,
    synchronized.init_members. rewrite HTM. cbv beta iota.
  rewrite (init_member_value_spec TM (Rvalue m0) (mutexes s) m0 HTM eq_refl).
  rewrite (init_member_value_spec TR x (resources s) v HTR Hv).
  eexists _, _. split; [reflexivity|]. simpl.
  split; [done|]. split; [done|].
  split; [apply fresh_not_live|]. split; [apply fresh_not_live|].
  split; [apply lookup_insert_eq|]. split; [apply lookup_insert_eq|].
  split; [|split; [|done]]; intros a Ha; by apply lookup_insert_ne.
Qed.

(** X2: a wrapper constructed from a value hands out, at its first access, a
    guard that dereferences to that value, provided the default constructed
    lock can be acquired. *)
Theorem first_access_reads_constructed_value (c : bool) (TR TM : cpp_type)
    (m0 m1 : M) (x : arg R) (v : R) s :
  is_lvalue_reference TR = false ->
  is_lvalue_reference TM = false ->
  arg_value x (resources s) = Some v ->
  Lockable.lock m0 = Returns m1 ->
  exists s',
    (w <- synchronized.ctor_resource TR TM m0 x ;;
     g <- access c w ;;
     locked_ptr.deref g) s = Done v s'
    /\ events s' = events s ++ [EvLock (fresh (dom (mutexes s))) None].
Proof.
  intros HTR HTM Hv Hl.
  unfold bind at 1.
  unfold synchronized.ctor_resource, synchronized.ctor_resource_mutex,
    synchronized.init_members. rewrite HTM. cbv beta iota.
  rewrite (init_member_value_spec TM (Rvalue m0) (mutexes s) m0 HTM eq_refl).
  rewrite (init_member_value_spec TR x (resources s) v HTR Hv).
  unfold bind. rewrite access_unfold. unfold bind, call_lock, call. simpl.
  rewrite lookup_insert_eq, Hl. simpl.
  unfold locked_ptr.deref. simpl. rewrite lookup_insert_eq.
  eexists. split; reflexivity.
Qed.



End Construction_facts.

(** ** The life of a guard *)

Section Guard_life_facts.
Context {M R : Type} `{!Lockable.t M}.

Implicit Types (s : state M R) (g : locked_ptr.t) (w : synchronized.t).

(** X4: one access followed by a block that returns and leaves the locks and
    the log alone is exactly one acquire and one release of the wrapper's
    lock, in this order; the value of the block is returned and the lock is
    left as the release left it. *)
Theorem acquire_release_cycle (c : bool) w s (st st1 st2 : M)
    {A} (body : locked_ptr.t -> prog (state M R) A) (a : A) s2 :
  mutexes s !! synchronized.mutex_ w = Some st ->
  Lockable.lock st = Returns st1 ->
  Lockable.unlock st1 = Returns st2 ->
  body (guard_of c w)
       (record_call (synchronized.mutex_ w) st1 (EvLock (synchronized.mutex_ w) None) s)
    = Done a s2 ->
  mutexes s2 = <[synchronized.mutex_ w := st1]> (mutexes s) ->
  events s2 = events s ++ [EvLock (synchronized.mutex_ w) None] ->
  exists s3,
    (g <- access c w ;; scope_exit g (body g)) s = Done a s3
    /\ mutexes s3 = <[synchronized.mutex_ w := st2]> (mutexes s)
    /\ resources s3 = resources s2
    /\ events s3 = events s ++ [EvLock (synchronized.mutex_ w) None;
                                EvUnlock (synchronized.mutex_ w) None].
Proof.
  intros Hm Hl Hu Hb Hms Hev.
  unfold bind at 1. rewrite access_unfold. unfold bind at 1, call_lock, call.
  rewrite Hm, Hl. simpl. unfold scope_exit. rewrite Hb. unfold bind.
  rewrite (dtor_owning_returns (guard_of c w) s2 st1 st2);
    [|done|simpl; rewrite Hms; apply lookup_insert_eq|done].
  eexists. split; [reflexivity|]. simpl. rewrite Hms, Hev.
  split; [apply insert_insert_eq|]. split; [done|]. by rewrite <- app_assoc.
Qed.

(** X5: when an exception leaves the block of an owning guard, the lock is
    released once on the way out and the exception of the block is the one
    that propagates, also when the release raises an exception of its own. *)
Theorem scope_exit_releases_on_exception g {A} (body : prog (state M R) A)
    s (e : exn) s1 (st st' : M) (r : option exn) :
  locked_ptr.owning g ->
  body s = Raised e s1 ->
  mutexes s1 !! locked_ptr.mutex_ g = Some st ->
  Lockable.unlock st = match r with
                       | None => Returns st'
                       | Some e' => Throws e' st'
                       end ->
  scope_exit g body s
  = Raised e (record_call (locked_ptr.mutex_ g) st'
                (EvUnlock (locked_ptr.mutex_ g) r) s1).
Proof.
  intros Hg%owning_not_null Hb Hm Hu.
  unfold scope_exit. rewrite Hb. unfold bind, locked_ptr.dtor. rewrite Hg. simpl.
  unfold try_catch_all, call_unlock, call. rewrite Hm, Hu. by destruct r.
Qed.

(** X6: after a move the new guard gives the access the source gave, to the
    same object; the source is left with a null pointer that [operator*]
    and member calls dereference without a check. *)
Theorem use_after_move_is_unchecked g s :
  exists g' other',
    locked_ptr.move_ctor g s = Done (g', other') s
    /\ locked_ptr.arrow g' = locked_ptr.arrow g
    /\ locked_ptr.deref (M:=M) (R:=R) g' s = locked_ptr.deref g s
    /\ locked_ptr.arrow other' = nullptr
    /\ locked_ptr.deref (M:=M) (R:=R) other' s = Undefined
    /\ forall A (overloads : list (qualifier * member R A)),
         call_member other' overloads s = Undefined.
Proof.
  eexists _, _. rewrite move_ctor_unfold. split; [reflexivity|].
  split; [done|]. split; [done|]. split; [done|]. split; [done|].
  intros A overloads. unfold call_member. simpl.
  by destruct (select_member _ overloads) as [[]|].
Qed.

(** X7: the copy constructor keeps the template arguments and makes no call
    on a lock.  A reference member of the copy is bound to the object the
    original's is bound to, so a copy with a reference-typed lock is in the
    same exclusion domain; a member held by value is a new object with the
    current value of the original's, so a lock held by value is copied in
    the state it is in, and the original is left as it was. *)
Theorem copy_shares_references_and_copies_values w s (st : M) (r : R) :
  mutexes s !! synchronized.mutex_ w = Some st ->
  resources s !! synchronized.resource_ w = Some r ->
  exists w' s',
    synchronized.copy_ctor w s = Done w' s'
    /\ synchronized.Resource w' = synchronized.Resource w
    /\ synchronized.Mutex w' = synchronized.Mutex w
    /\ events s' = events s
    /\ mutexes s' !! synchronized.mutex_ w' = Some st
    /\ resources s' !! synchronized.resource_ w' = Some r
    /\ mutexes s' !! synchronized.mutex_ w = Some st
    /\ resources s' !! synchronized.resource_ w = Some r
    /\ (if owns_lock w then synchronized.mutex_ w' <> synchronized.mutex_ w
                            /\ mutexes s !! synchronized.mutex_ w' = None
        else synchronized.mutex_ w' = synchronized.mutex_ w /\ mutexes s' = mutexes s)
    /\ (if owns_resource w then synchronized.resource_ w' <> synchronized.resource_ w
                                /\ resources s !! synchronized.resource_ w' = None
        else synchronized.resource_ w' = synchronized.resource_ w
             /\ resources s' = resources s).
Proof.
  intros Hm Hr.
  assert (Hfm : fresh (dom (mutexes s)) <> synchronized.mutex_ w).
  { intros Heq. pose proof (fresh_not_live (mutexes s)) as Hf. congruence. }
  assert (Hfr : fresh (dom (resources s)) <> synchronized.resource_ w).
  { intros Heq. pose proof (fresh_not_live (resources s)) as Hf. congruence. }
  unfold synchronized.copy_ctor, synchronized.init_members, init_member,
    owns_lock, owns_resource.
  rewrite Hm, Hr.
  destruct (is_lvalue_reference (synchronized.Mutex w)),
           (is_lvalue_reference (synchronized.Resource w));
    rewrite ?decide_True by eauto; eexists _, _; (split; [reflexivity|]); simpl;
    rewrite ?lookup_insert_eq, ?lookup_insert_ne by done;
    repeat split; auto using fresh_not_live.
Qed.
End Guard_life_facts.

(** ** Holds over sequences of operations *)

Section Hold_facts.
Context {M R : Type} `{!Lockable.t M}.

Implicit Types (s : state M R) (g : locked_ptr.t) (env : guards).

Lemma step_move_inv (i : nat) env s env' s' :
  step_caught (OpMove i) env s = Done env' s' ->
  s' = s /\ length env' = S (length env)
  /\ forall m : addr, owners m env' = owners m env.
Proof.
  unfold step_caught, step.
  destruct (env !! i) as [[g|]|] eqn:Hi; try discriminate.
  simpl. intros [= <- <-]. split; [done|]. split.
  - rewrite length_app, length_insert. simpl. lia.
  - intros m.
    pose proof (count_if_insert (is_owner m) i env (Some g)
                  (Some {| locked_ptr.Resource := locked_ptr.Resource g;
                           locked_ptr.ptr_ := nullptr;
                           locked_ptr.mutex_ := locked_ptr.mutex_ g |}) Hi) as Hc.
    unfold owners. rewrite count_if_app. simpl in *.
    destruct (negb (is_null (locked_ptr.ptr_ g)) && bool_decide (locked_ptr.mutex_ g = m));
      lia.
Qed.

(** X8: moves alone, however many and from whichever live guards, make no
    call on any lock and leave the store as it is; each adds one guard
    object, and for every lock the number of live owning guards stays what
    it was. *)
Theorem moves_keep_every_hold (sources : list nat) env s env' s' :
  run (OpMove <$> sources) env s = Done env' s' ->
  s' = s
  /\ length env' = (length env + length sources)%nat
  /\ forall m : addr, owners m env' = owners m env.
Proof.
  revert env. induction sources as [|i sources IH]; intros env Hr.
  - injection Hr as <- <-. split; [done|]. split; [simpl; lia | done].
  - rewrite fmap_cons, run_cons in Hr.
    destruct (step_caught (OpMove i) env s) as [env1 s1| | |] eqn:Hs; try discriminate.
    apply step_move_inv in Hs as (-> & Hlen & Hown).
    apply IH in Hr as (-> & Hlen' & Hown'). split; [done|]. split.
    + rewrite Hlen', Hlen. simpl. lia.
    + intros m. by rewrite Hown', Hown.
Qed.
End Hold_facts.

Section Std_mutex_facts.
Context {R : Type}.

Implicit Types (s : state std_mutex.t R) (g : locked_ptr.t) (env : guards).

Lemma std_lock_returns (st st' : std_mutex.t) :
  Lockable.lock st = Returns st' ->
  std_mutex.held st = false /\ st' = {| std_mutex.held := true |}.
Proof. destruct st as [[]]; simpl; unfold std_mutex.lock; simpl; [done|]. by intros [= <-]. Qed.

Lemma std_unlock_returns (st st' : std_mutex.t) :
  Lockable.unlock st = Returns st' ->
  std_mutex.held st = true /\ st' = {| std_mutex.held := false |}.
Proof. destruct st as [[]]; simpl; unfold std_mutex.unlock; simpl; [|done]. by intros [= <-]. Qed.

Lemma std_never_throws (st st' : std_mutex.t) (e : exn) :
  Lockable.lock st <> Throws e st' /\ Lockable.unlock st <> Throws e st'.
Proof. by destruct st as [[]]. Qed.

Lemma ctor_holds_match (T : cpp_type) (ptr : pointer) (m : addr) env s :
  holds_match env s ->
  match locked_ptr.ctor T ptr m s with
  | Done g s' => holds_match (env ++ [Some g]) s'
  | Raised _ _ => False
  | Hang | Undefined => True
  end.
Proof.
  intros Hinv. unfold locked_ptr.ctor.
  destruct (is_null ptr) eqn:Hp; simpl.
  - intros m0. rewrite <- (Hinv m0). unfold owners. rewrite count_if_app. simpl.
    rewrite Hp. simpl. lia.
  - unfold bind. pose proof (call_lock_inv (R:=R) m s) as Hc.
    destruct (call_lock m s) as [[] s1|e s1| |]; [| |done|done].
    + destruct Hc as (st & st' & Hm & [Hfree ->]%std_lock_returns & ->).
      intros m0. specialize (Hinv m0). unfold owners in *. rewrite count_if_app.
      simpl. rewrite Hp. simpl. destruct (decide (m = m0)) as [<-|Hne].
      * rewrite lookup_insert_eq. simpl. rewrite Hm, Hfree in Hinv.
        rewrite bool_decide_eq_true_2 by done. lia.
      * rewrite lookup_insert_ne by done.
        rewrite bool_decide_eq_false_2 by done. lia.
    + destruct Hc as (st & st' & _ & Hl & _). by apply std_never_throws in Hl.
Qed.

Lemma dtor_holds_match (i : nat) g env s :
  env !! i = Some (Some g) ->
  holds_match env s ->
  match locked_ptr.dtor g s with
  | Done _ s' => holds_match (<[i := None]> env) s'
  | Raised _ _ => False
  | Hang | Undefined => True
  end.
Proof.
  intros Hi Hinv. unfold locked_ptr.dtor.
  destruct (is_null (locked_ptr.ptr_ g)) eqn:Hp; simpl.
  - intros m0. rewrite <- (Hinv m0).
    pose proof (count_if_insert (is_owner m0) i env (Some g) None Hi) as Hc.
    unfold owners. simpl in Hc. rewrite Hp in Hc. simpl in Hc. lia.
  - unfold try_catch_all.
    pose proof (call_unlock_inv (R:=R) (locked_ptr.mutex_ g) s) as Hc.
    destruct (call_unlock (locked_ptr.mutex_ g) s) as [[] s1|e s1| |]; [| |done|done].
    + destruct Hc as (st & st' & Hm & [Hheld ->]%std_unlock_returns & ->).
      intros m0. specialize (Hinv m0).
      pose proof (count_if_insert (is_owner m0) i env (Some g) None Hi) as Hcnt.
      unfold owners in *. simpl in *. rewrite Hp in Hcnt. simpl in Hcnt.
      destruct (decide (locked_ptr.mutex_ g = m0)) as [<-|Hne].
      * rewrite lookup_insert_eq. simpl. rewrite Hm, Hheld in Hinv.
        rewrite bool_decide_eq_true_2 in Hcnt by done. lia.
      * rewrite lookup_insert_ne by done.
        rewrite bool_decide_eq_false_2 in Hcnt by done. lia.
    + destruct Hc as (st & st' & _ & Hu & _). by apply std_never_throws in Hu.
Qed.

Lemma step_caught_holds_match (o : op) env s env' s' :
  holds_match env s ->
  step_caught o env s = Done env' s' ->
  holds_match env' s'.
Proof.
  intros Hinv Hs. unfold step_caught, step in Hs.
  destruct o as [c w|T ptr m|i|i].
  - pose proof (ctor_holds_match
                  (if c then synchronized.locked_const_ptr w
                   else synchronized.locked_mutable_ptr w)
                  (addressof (synchronized.resource_ w)) (synchronized.mutex_ w)
                  env s Hinv) as Hc.
    unfold bind in Hs.
    replace (access c w s) with
      (locked_ptr.ctor (if c then synchronized.locked_const_ptr w
                        else synchronized.locked_mutable_ptr w)
         (addressof (synchronized.resource_ w)) (synchronized.mutex_ w) s) in Hs
      by (by destruct c).
    destruct (locked_ptr.ctor _ _ _ s) as [g s1|e s1| |]; try done.
    simpl in Hs. by injection Hs as <- <-.
  - pose proof (ctor_holds_match T ptr m env s Hinv) as Hc. unfold bind in Hs.
    destruct (locked_ptr.ctor T ptr m s) as [g s1|e s1| |]; try done.
    simpl in Hs. by injection Hs as <- <-.
  - assert (Hs' : step_caught (OpMove i) env s = Done env' s') by exact Hs.
    apply step_move_inv in Hs' as (-> & _ & Hown).
    intros m. by rewrite Hown.
  - destruct (env !! i) as [[g|]|] eqn:Hi; try discriminate.
    pose proof (dtor_holds_match i g env s Hi Hinv) as Hd. unfold bind in Hs.
    destruct (locked_ptr.dtor g s) as [[] s1|e s1| |]; try done.
    simpl in Hs. by injection Hs as <- <-.
Qed.

Lemma run_holds_match (ops : list op) env s env' s' :
  holds_match env s ->
  run ops env s = Done env' s' ->
  holds_match env' s'.
Proof.
  revert env s. induction ops as [|o ops IH]; intros env s Hinv Hr.
  - by injection Hr as <- <-.
  - rewrite run_cons in Hr.
    destruct (step_caught o env s) as [env1 s1| | |] eqn:Hs; try discriminate.
    eapply IH; [|exact Hr]. by eapply step_caught_holds_match.
Qed.

(** X9: with [std::mutex] as the lock, begun with every lock free and no
    guard, any sequence of accesses, constructions, moves and destructions
    that runs to its end leaves every lock with at most one live owning
    guard, held exactly when it has one; and while a guard owns a lock, an
    access through any wrapper bound to that lock does not return. *)
Theorem std_mutex_has_one_owner (ops : list op) s env' s' :
  (forall (m : addr) (st : std_mutex.t),
     mutexes s !! m = Some st -> std_mutex.held st = false) ->
  run ops [] s = Done env' s' ->
  forall m : addr,
    (owners m env' <= 1)%nat
    /\ (forall st : std_mutex.t,
          mutexes s' !! m = Some st ->
          (std_mutex.held st = true <-> owners m env' = 1%nat))
    /\ (owners m env' = 1%nat ->
        forall (c : bool) (w : synchronized.t),
          synchronized.mutex_ w = m -> access c w s' = Hang).
Proof.
  intros Hfree Hr m.
  assert (Hinit : holds_match [] s).
  { intros m0. simpl. destruct (mutexes s !! m0) as [st|] eqn:Hm; [|done].
    by rewrite (Hfree _ _ Hm). }
  pose proof (run_holds_match ops [] s env' s' Hinit Hr m) as Hinv.
  split; [|split].
  - rewrite Hinv. destruct (mutexes s' !! m) as [[[]]|]; simpl; lia.
  - intros st Hm. rewrite Hinv, Hm. destruct (std_mutex.held st); split; (done || lia).
  - intros Hone c w Hw. rewrite access_unfold. unfold bind, call_lock, call.
    rewrite Hw. rewrite Hone in Hinv.
    destruct (mutexes s' !! m) as [[[]]|]; simpl in *; done.
Qed.
End Std_mutex_facts.

(** [dereference]: the guard dereferences to 42. *)
Example dereference_checks :
  returned (dereference empty_state) = Some 42.
Proof. reflexivity. Qed.

(** ** Conversion without aliasing *)

Section Conversion_facts.
Context {M R : Type} `{!Lockable.t M}.

Implicit Types (s : state M R) (g : locked_ptr.t) (w : synchronized.t).

(** X10: a conversion whose target holds its lock by value is no alias: the
    new wrapper gets a lock object of its own, a copy of the original's lock
    in its current state, and an access through the new wrapper, whether it
    returns or raises, leaves the original's lock as it was. *)
Theorem conversion_by_value_is_independent (other : synchronized.t) (TR TM : cpp_type)
    s w s' (st : M) :
  is_lvalue_reference TM = false ->
  mutexes s !! synchronized.mutex_ other = Some st ->
  synchronized.convert TR TM other s = Done w s' ->
  synchronized.mutex_ w <> synchronized.mutex_ other
  /\ mutexes s !! synchronized.mutex_ w = None
  /\ mutexes s' !! synchronized.mutex_ w = Some st
  /\ mutexes s' !! synchronized.mutex_ other = Some st
  /\ forall (c : bool) s0,
       match access c w s0 with
       | Done _ s1 | Raised _ s1 =>
           mutexes s1 !! synchronized.mutex_ other = mutexes s0 !! synchronized.mutex_ other
       | Hang | Undefined => True
       end.
Proof.
  intros HTM Hm (_ & _ & Hinit & _)%ctor_resource_mutex_inv.
  unfold init_member in Hinit. rewrite HTM, Hm in Hinit. injection Hinit as Hw Hms.
  assert (Hnew : mutexes s !! synchronized.mutex_ w = None).
  { rewrite <- Hw. apply fresh_not_live. }
  assert (Hne : synchronized.mutex_ w <> synchronized.mutex_ other) by congruence.
  split; [done|]. split; [done|]. rewrite <- Hms, Hw.
  split; [apply lookup_insert_eq|]. split; [by rewrite lookup_insert_ne|].
  intros c s0. rewrite access_unfold. unfold bind.
  pose proof (call_lock_inv (synchronized.mutex_ w) s0) as Hc.
  destruct (call_lock (synchronized.mutex_ w) s0) as [[] s1|e s1| |]; [| |done|done];
    destruct Hc as (st0 & st1 & _ & _ & ->); simpl; by rewrite lookup_insert_ne.
Qed.
End Conversion_facts.

(** ** Assignment *)

Section Assignment_facts.
Context {M R : Type} `{!Lockable.t M}.

Implicit Types (s : state M R) (g : locked_ptr.t).

(** X11: copy assignment takes no lock and overwrites the target's lock
    object along with its resource.  Assigned to while a guard holds its
    lock, a wrapper keeps its objects (no object is created and the guard
    stays owning and valid), but the guard now reads the value of the
    source's resource and the target's lock is in the state of the source's
    lock: the record of the acquisition is gone, and no call on any lock was
    made by the assignment. *)
Theorem assignment_ignores_the_lock (c : bool) (this other : synchronized.t) s
    (mt mt1 mo : M) (rt ro : R) :
  owns_lock this = true ->
  owns_resource this = true ->
  synchronized.mutex_ other <> synchronized.mutex_ this ->
  mutexes s !! synchronized.mutex_ this = Some mt ->
  Lockable.lock mt = Returns mt1 ->
  mutexes s !! synchronized.mutex_ other = Some mo ->
  resources s !! synchronized.resource_ this = Some rt ->
  resources s !! synchronized.resource_ other = Some ro ->
  exists g s2,
    (g <- access c this ;; _ <- synchronized.assign this other ;; ret g) s = Done g s2
    /\ locked_ptr.owning g
    /\ mutexes s2 !! synchronized.mutex_ this = Some mo
    /\ locked_ptr.deref g s2 = Done ro s2
    /\ events s2 = events s ++ [EvLock (synchronized.mutex_ this) None]
    /\ dom (mutexes s2) = dom (mutexes s)
    /\ dom (resources s2) = dom (resources s).
Proof.
  unfold owns_lock, owns_resource.
  intros HM%negb_true_iff HR%negb_true_iff Hne Hmt Hl Hmo Hrt Hro.
  exists (guard_of c this). eexists.
  unfold bind at 1. rewrite access_unfold. unfold bind at 1, call_lock, call.
  rewrite Hmt, Hl. simpl. unfold bind, synchronized.assign. rewrite HM, HR. simpl.
  rewrite lookup_insert_eq, lookup_insert_ne, Hmo, Hrt, Hro by done.
  split; [reflexivity|]. simpl.
  split; [by apply owning_not_null|]. split; [apply lookup_insert_eq|].
  split; [unfold locked_ptr.deref; simpl; by rewrite lookup_insert_eq|].
  split; [done|]. split.
  - rewrite !dom_insert_lookup_L; [done|by rewrite Hmt|by rewrite lookup_insert_eq].
  - by rewrite dom_insert_lookup_L by (by rewrite Hrt).
Qed.
End Assignment_facts.

(** ** The further properties at concrete inputs *)

Lemma ctor_resource_creates_own_objects_witness :
  is_lvalue_reference int_type = false
  /\ is_lvalue_reference mock_mutex = false
  /\ exists w s',
       synchronized.ctor_resource int_type mock_mutex flag_mutex.init (Rvalue 42)
           (empty_state (M:=flag_mutex.t) (R:=Z)) = Done w s'
       /\ mutexes s' !! synchronized.mutex_ w = Some flag_mutex.init
       /\ resources s' !! synchronized.resource_ w = Some 42.
Proof.
  split; [reflexivity|]. split; [reflexivity|].
  destruct (ctor_resource_creates_own_objects int_type mock_mutex flag_mutex.init
              (Rvalue 42) 42 (empty_state (M:=flag_mutex.t) (R:=Z))
              ltac:(reflexivity) ltac:(reflexivity) ltac:(reflexivity))
    as (w & s' & Hc & _ & _ & _ & _ & Hm & Hr & _).
  exists w, s'. split; [exact Hc|]. split; [exact Hm | exact Hr].
Defined.

Lemma first_access_reads_constructed_value_witness :
  Lockable.lock flag_mutex.init = Returns {| flag_mutex.is_locked := true |}
  /\ exists s',
       (w <- synchronized.ctor_resource int_type mock_mutex flag_mutex.init (Rvalue 42) ;;
        g <- access false w ;;
        locked_ptr.deref g) (empty_state (M:=flag_mutex.t) (R:=Z)) = Done 42 s'.
Proof.
  split; [reflexivity|].
  destruct (first_access_reads_constructed_value false int_type mock_mutex
              flag_mutex.init {| flag_mutex.is_locked := true |} (Rvalue 42) 42
              (empty_state (M:=flag_mutex.t) (R:=Z))
              ltac:(reflexivity) ltac:(reflexivity) ltac:(reflexivity) ltac:(reflexivity))
    as (s' & Hd & _).
  exists s'. exact Hd.
Defined.


Lemma acquire_release_cycle_witness :
  Lockable.lock flag_mutex.init = Returns {| flag_mutex.is_locked := true |}
  /\ Lockable.unlock {| flag_mutex.is_locked := true |}
     = Returns {| flag_mutex.is_locked := false |}
  /\ exists s3,
       (g <- access false (wrapper_of int_type mock_mutex) ;;
        scope_exit g (locked_ptr.deref g)) (store_of flag_mutex.init 42) = Done 42 s3
       /\ events s3 = [EvLock 1%positive None; EvUnlock 1%positive None].
Proof.
  split; [reflexivity|]. split; [reflexivity|].
  destruct (acquire_release_cycle false (wrapper_of int_type mock_mutex)
              (store_of flag_mutex.init 42) flag_mutex.init
              {| flag_mutex.is_locked := true |} {| flag_mutex.is_locked := false |}
              (fun g => locked_ptr.deref g) 42 _
              ltac:(reflexivity) ltac:(reflexivity) ltac:(reflexivity)
              ltac:(reflexivity) ltac:(reflexivity) ltac:(reflexivity))
    as (s3 & Hrun & _ & _ & Hev).
  exists s3. split; [exact Hrun | exact Hev].
Defined.

Lemma scope_exit_releases_on_exception_witness :
  locked_ptr.owning (guard_of false (wrapper_of vector_int mock_mutex))
  /\ call_member (guard_of false (wrapper_of vector_int mock_mutex)) (vector_at_assign 7 4)
       (store_of {| counting_mutex.count_lock := 1; counting_mutex.count_unlock := 0 |}
                 (replicate 5 42))
     = Raised (out_of_range "vector::at")
         (store_of {| counting_mutex.count_lock := 1; counting_mutex.count_unlock := 0 |}
                   (replicate 5 42))
  /\ scope_exit (guard_of false (wrapper_of vector_int mock_mutex))
       (call_member (guard_of false (wrapper_of vector_int mock_mutex))
          (vector_at_assign 7 4))
       (store_of {| counting_mutex.count_lock := 1; counting_mutex.count_unlock := 0 |}
                 (replicate 5 42))
     = Raised (out_of_range "vector::at")
         (State {[1%positive := {| counting_mutex.count_lock := 1;
                                   counting_mutex.count_unlock := 1 |}]}
                {[1%positive := replicate 5 42]} [EvUnlock 1%positive None]).
Proof.
  split; [discriminate|]. split; [reflexivity|].
  exact (scope_exit_releases_on_exception
           (guard_of false (wrapper_of vector_int mock_mutex))
           (call_member (guard_of false (wrapper_of vector_int mock_mutex))
              (vector_at_assign 7 4))
           (store_of {| counting_mutex.count_lock := 1; counting_mutex.count_unlock := 0 |}
                     (replicate 5 42))
           (out_of_range "vector::at") _
           {| counting_mutex.count_lock := 1; counting_mutex.count_unlock := 0 |}
           {| counting_mutex.count_lock := 1; counting_mutex.count_unlock := 1 |}
           None
           ltac:(discriminate) ltac:(reflexivity) ltac:(reflexivity) ltac:(reflexivity)).
Defined.

Lemma copy_shares_references_and_copies_values_witness :
  mutexes (store_of flag_mutex.init 42)
    !! synchronized.mutex_ (wrapper_of int_type (lref_to mock_mutex)) = Some flag_mutex.init
  /\ exists w' s',
       synchronized.copy_ctor (wrapper_of int_type (lref_to mock_mutex))
           (store_of flag_mutex.init 42) = Done w' s'
       /\ synchronized.mutex_ w' = synchronized.mutex_ (wrapper_of int_type (lref_to mock_mutex))
       /\ synchronized.resource_ w'
          <> synchronized.resource_ (wrapper_of int_type (lref_to mock_mutex)).
Proof.
  split; [reflexivity|].
  destruct (copy_shares_references_and_copies_values
              (wrapper_of int_type (lref_to mock_mutex)) (store_of flag_mutex.init 42)
              flag_mutex.init 42 ltac:(reflexivity) ltac:(reflexivity))
    as (w' & s' & Hc & _ & _ & _ & _ & _ & _ & _ & [Hm _] & [Hr _]).
  exists w', s'. split; [exact Hc|]. split; [exact Hm | exact Hr].
Defined.

Lemma moves_keep_every_hold_witness :
  run (OpMove <$> [0; 1]%nat) [Some (guard_of false (wrapper_of int_type mock_mutex))]
      (store_of flag_mutex.init 42)
    = Done [Some {| locked_ptr.Resource := int_type; locked_ptr.ptr_ := nullptr;
                    locked_ptr.mutex_ := 1%positive |};
            Some {| locked_ptr.Resource := int_type; locked_ptr.ptr_ := nullptr;
                    locked_ptr.mutex_ := 1%positive |};
            Some (guard_of false (wrapper_of int_type mock_mutex))]
           (store_of flag_mutex.init 42)
  /\ owners 1%positive
       [Some {| locked_ptr.Resource := int_type; locked_ptr.ptr_ := nullptr;
                locked_ptr.mutex_ := 1%positive |};
        Some {| locked_ptr.Resource := int_type; locked_ptr.ptr_ := nullptr;
                locked_ptr.mutex_ := 1%positive |};
        Some (guard_of false (wrapper_of int_type mock_mutex))]
     = owners 1%positive [Some (guard_of false (wrapper_of int_type mock_mutex))].
Proof.
  split; [reflexivity|].
  exact (proj2 (proj2 (moves_keep_every_hold [0; 1]%nat
                         [Some (guard_of false (wrapper_of int_type mock_mutex))]
                         (store_of flag_mutex.init 42) _ _ ltac:(reflexivity)))
               1%positive).
Defined.

Lemma std_mutex_has_one_owner_witness :
  run [OpAccess false (wrapper_of int_type synchronized.std_mutex_type); OpMove 0] []
      (store_of std_mutex.init 42)
    = Done [Some {| locked_ptr.Resource := int_type; locked_ptr.ptr_ := nullptr;
                    locked_ptr.mutex_ := 1%positive |};
            Some (guard_of false (wrapper_of int_type synchronized.std_mutex_type))]
           (State {[1%positive := {| std_mutex.held := true |}]} {[1%positive := 42]}
                  [EvLock 1%positive None])
  /\ access true (wrapper_of int_type synchronized.std_mutex_type)
       (State {[1%positive := {| std_mutex.held := true |}]} {[1%positive := 42]}
              [EvLock 1%positive None])
     = Hang.
Proof.
  split; [reflexivity|].
  refine (proj2 (proj2 (std_mutex_has_one_owner
                          [OpAccess false (wrapper_of int_type synchronized.std_mutex_type);
                           OpMove 0]
                          (store_of std_mutex.init 42) _ _ _ ltac:(reflexivity)
                          1%positive))
                ltac:(reflexivity) true
                (wrapper_of int_type synchronized.std_mutex_type) ltac:(reflexivity)).
  intros m st. unfold store_of. simpl.
  destruct (decide (m = 1%positive)) as [->|Hne].
  - rewrite lookup_singleton_eq. by intros [= <-].
  - by rewrite lookup_singleton_ne.
Defined.

Lemma conversion_by_value_is_independent_witness :
  is_lvalue_reference mock_mutex = false
  /\ exists w s',
       synchronized.convert (lref_to parent) mock_mutex (wrapper_of child mock_mutex)
           (store_of flag_mutex.init tt) = Done w s'
       /\ synchronized.mutex_ w <> synchronized.mutex_ (wrapper_of child mock_mutex)
       /\ mutexes s' !! synchronized.mutex_ w = Some flag_mutex.init.
Proof.
  split; [reflexivity|]. eexists _, _. split; [reflexivity|].
  destruct (conversion_by_value_is_independent (wrapper_of child mock_mutex)
              (lref_to parent) mock_mutex (store_of flag_mutex.init tt) _ _
              flag_mutex.init ltac:(reflexivity) ltac:(reflexivity) ltac:(reflexivity))
    as (Hne & _ & Hcopy & _).
  split; [exact Hne | exact Hcopy].
Defined.

Lemma assignment_ignores_the_lock_witness :
  owns_lock (wrapper_of int_type mock_mutex) = true
  /\ Lockable.lock flag_mutex.init = Returns {| flag_mutex.is_locked := true |}
  /\ exists g s2,
       (g <- access false (wrapper_of int_type mock_mutex) ;;
        _ <- synchronized.assign (wrapper_of int_type mock_mutex)
               {| synchronized.Resource := int_type; synchronized.Mutex := mock_mutex;
                  synchronized.mutex_ := 2%positive;
                  synchronized.resource_ := 2%positive |} ;;
        ret g)
         (State (<[2%positive := flag_mutex.init]> {[1%positive := flag_mutex.init]})
                (<[2%positive := 7]> {[1%positive := 42]}) [])
       = Done g s2
       /\ mutexes s2 !! 1%positive = Some {| flag_mutex.is_locked := false |}
       /\ locked_ptr.deref g s2 = Done 7 s2.
Proof.
  split; [reflexivity|]. split; [reflexivity|].
  destruct (assignment_ignores_the_lock false (wrapper_of int_type mock_mutex)
              {| synchronized.Resource := int_type; synchronized.Mutex := mock_mutex;
                 synchronized.mutex_ := 2%positive; synchronized.resource_ := 2%positive |}
              (State (<[2%positive := flag_mutex.init]> {[1%positive := flag_mutex.init]})
                     (<[2%positive := 7]> {[1%positive := 42]}) [])
              flag_mutex.init {| flag_mutex.is_locked := true |} flag_mutex.init 42 7
              ltac:(reflexivity) ltac:(reflexivity) ltac:(discriminate)
              ltac:(reflexivity) ltac:(reflexivity) ltac:(reflexivity)
              ltac:(reflexivity) ltac:(reflexivity))
    as (g & s2 & Hrun & _ & Hlock & Hread & _).
  exists g, s2. split; [exact Hrun|]. split; [exact Hlock | exact Hread].
Defined.
